(** * ParametersPane.js: command construction, candidate scan, dialog and table

  A shallow embedding of [openmdao.ParametersPane]
  (openmdao.gui/static/js/openmdao/ParametersPane.js) and the properties
  of its command strings, its candidate scan, its add-parameter dialog
  and its table handlers.

  JavaScript strings are modelled as [string] (code units below 256),
  JavaScript objects read by field name as [gmap string jsval], arrays as
  lists, and every handler as a function on an explicit pane state. What
  the pane writes to the developer console ([console.log], [debug.info],
  [debug.error]) is not part of that state. *)

From Stdlib Require Import Ascii ZArith Lia.
From stdpp Require Import gmap strings list fin_maps pretty.

Local Open Scope Z_scope.

(** ** The JavaScript values and built-ins the pane relies on *)

Module JS.

(** The primitive values that reach the pane. Numbers are the
    integer-valued ones, printed in decimal as [ToString] does. *)
Inductive jsval : Type :=
| JUndefined
| JNull
| JBool (b : bool)
| JNum (n : Z)
| JStr (s : string).

#[global] Instance jsval_eq_dec : EqDecision jsval.
Proof. solve_decision. Defined.

#[global] Instance jsval_inhabited : Inhabited jsval := populate JUndefined.

(** [ToBoolean]: what [if (v)] tests. *)
Definition truthy (v : jsval) : bool :=
  match v with
  | JUndefined | JNull => false
  | JBool b => b
  | JNum n => negb (n =? 0)
  | JStr s => negb (bool_decide (s = ""))
  end.

(** [ToString]: what [str + v] appends. *)
Definition toStr (v : jsval) : string :=
  match v with
  | JUndefined => "undefined"
  | JNull => "null"
  | JBool true => "true"
  | JBool false => "false"
  | JNum n => pretty n
  | JStr s => s
  end.

(** An object read by field name; an absent field reads [undefined]. *)
Abbreviation jsobj := (gmap string jsval).

Definition field (o : jsobj) (k : string) : jsval := default JUndefined (o !! k).

(** The one-character string holding a double quote. *)
Definition dquote : string := String "034"%char EmptyString.

(** Exceptions. The pane only ever meets [TypeError]. *)
Inductive jserror : Type := TypeError.

Inductive outcome (A : Type) : Type :=
| Ok (a : A)
| Throw (e : jserror).
Arguments Ok {A} a.
Arguments Throw {A} e.

(** [String.prototype.split] with a one-character separator: the pieces
    between the separators, in order; always at least one piece. *)
Fixpoint split (sep : Ascii.ascii) (s : string) : list string :=
  match s with
  | EmptyString => [""]
  | String c s' =>
      if bool_decide (c = sep) then "" :: split sep s'
      else match split sep s' with
           | [] => [String c ""]
           | p :: ps => String c p :: ps
           end
  end.

(** [Array.prototype.join] with a one-character separator. *)
Fixpoint join (sep : Ascii.ascii) (l : list string) : string :=
  match l with
  | [] => ""
  | [p] => p
  | p :: ps => p +:+ String sep (join sep ps)
  end.

(** [arr.slice(-1)[0]]: the last element, [undefined] on an empty array. *)
Definition slice_last (l : list string) : option string := last l.

(** Whether a string holds the character. *)
Fixpoint contains (c : Ascii.ascii) (s : string) : bool :=
  match s with
  | EmptyString => false
  | String c' s' => bool_decide (c' = c) || contains c s'
  end.

(** White space in the Latin-1 range, as [\s] and [trim] see it. *)
Definition is_white (c : Ascii.ascii) : bool :=
  Ascii.is_space c || bool_decide (c = "160"%char).

Fixpoint all_white (s : string) : bool :=
  match s with
  | EmptyString => true
  | String c s' => is_white c && all_white s'
  end.

Fixpoint trim_left (s : string) : string :=
  match s with
  | EmptyString => ""
  | String c s' => if is_white c then trim_left s' else s
  end.

Fixpoint trim_right (s : string) : string :=
  match s with
  | EmptyString => ""
  | String c s' => if all_white s then "" else String c (trim_right s')
  end.

End JS.
Export JS.

Module jQuery.

(** [jQuery.trim(text)]: the text without leading and trailing white
    space. *)
Definition trim (s : string) : string := trim_right (trim_left s).

(** [jQuery.each(arr, body)], the state the body updates threaded
    through the passes. Over an absent collection the releases differ:
    the older ones raise on reading its [length], the newer ones run the
    body zero times; [absent_throws] says which one is loaded. *)
Definition each {A S : Type} (absent_throws : bool)
    (arr : option (list A)) (body : S → A → S) (s : S) : outcome S :=
  match arr with
  | Some l => Ok (fold_left body l s)
  | None => if absent_throws then Throw TypeError else Ok s
  end.

End jQuery.

(** ** The pane *)

Module ParametersPane.

Section Pane.

(** The constructor's arguments [pathname], [name] and [editable]. *)
Variable pathname : string.
Variable name : string.
Variable editable : bool.

(** Which [jQuery.each] the page loads (see [jQuery.each]). *)
Variable each_absent_throws : bool.

(** *** State *)

(** The closure variables [candidates] and [limits]: the candidate names
    in the order pushed, and the bounds pair stored under each name. *)
Record scan : Type := Scan {
  candidates : list string;
  limits : gmap string (jsval * jsval)
}.

Definition scan_empty : scan := Scan [] ∅.

(** The six text inputs of the dialog, as [val()] reads them. *)
Record form : Type := Form {
  f_target : string;
  f_low : string;
  f_high : string;
  f_scaler : string;
  f_adder : string;
  f_name : string
}.

Definition form_empty : form := Form "" "" "" "" "" "".

(** One add-parameter dialog, with the variables its [findComps]
    activation owns. [dlg_pending] holds, for every [getComponent] request
    not answered yet, the [comppath] its [findInputs] closure captured. *)
Record dialog : Type := Dialog {
  dlg_scan : scan;
  dlg_pending : list string;
  dlg_form : form;
  dlg_open : bool;
  dlg_in_dom : bool
}.

(** What [loadData] can be given and [parms.setData] stores: an array of
    row objects, or some value that is not an array. *)
Inductive properties : Type :=
| Rows (rows : list jsobj)
| NotRows (v : jsval).

Definition properties_truthy (p : properties) : bool :=
  match p with
  | Rows _ => true
  | NotRows v => truthy v
  end.

(** The pane: the grid's data, the commands handed to
    [model.issueCommand] (oldest first), the [alert] boxes shown,
    the number of [resizeCanvas] calls, the pane-level [candidates] and
    [limits] of lines 6 and 7, and the dialogs created so far. *)
Record pane : Type := Pane {
  grid_data : properties;
  issued : list string;
  alerts : list string;
  resized : nat;
  outer_scan : scan;
  dialogs : list dialog
}.

Definition pane_init : pane := Pane (Rows []) [] [] 0 scan_empty [].

Definition setData (p : properties) (st : pane) : pane :=
  Pane p (issued st) (alerts st) (resized st) (outer_scan st) (dialogs st).

Definition issueCommand (cmd : string) (st : pane) : pane :=
  Pane (grid_data st) (issued st ++ [cmd]) (alerts st) (resized st)
       (outer_scan st) (dialogs st).

Definition alert (msg : string) (st : pane) : pane :=
  Pane (grid_data st) (issued st) (alerts st ++ [msg]) (resized st)
       (outer_scan st) (dialogs st).

Definition resizeCanvas (st : pane) : pane :=
  Pane (grid_data st) (issued st) (alerts st) (S (resized st))
       (outer_scan st) (dialogs st).

Definition set_dialogs (ds : list dialog) (st : pane) : pane :=
  Pane (grid_data st) (issued st) (alerts st) (resized st)
       (outer_scan st) ds.

(** *** The grid handlers (lines 48 to 68) *)

(** What [parms.getCellFromEvent(e)] returns when it is not [null]. *)
Record cellpos : Type := CellPos { row : nat; cell : nat }.

(** [parms.getData()[i]]; out of range, or on data that is not an array
    of rows, there is no row object to read a field of. *)
Definition getRow (st : pane) (i : nat) : option jsobj :=
  match grid_data st with
  | Rows rows => rows !! i
  | NotRows _ => None
  end.

(** The text of [cmd] built at lines 60 to 65. *)
Definition remove_cmd (delname : string) : string :=
  if bool_decide (1 < length (split "," delname))%nat then
    pathname +:+ ".remove_parameter(" +:+ delname +:+ ");"
  else
    pathname +:+ ".remove_parameter(" +:+ dquote +:+ delname +:+ dquote +:+ ");".

(** The [onClick] subscriber. [c] is the result of [getCellFromEvent];
    reading a field of [null] or [undefined], or calling [split] on a
    [name] that is not a string, raises. *)
Definition onClick (c : option cellpos) (st : pane) : outcome pane :=
  match c with
  | None => Throw TypeError
  | Some c =>
      if bool_decide (cell c = 0%nat) then
        match getRow st (row c) with
        | None => Throw TypeError
        | Some r =>
            match field r "name" with
            | JStr delname => Ok (issueCommand (remove_cmd delname) st)
            | _ => Throw TypeError
            end
        end
      else Ok st
  end.

(** The [onCellChange] subscriber, there only on an editable pane. *)
Definition onCellChange (item : jsobj) (st : pane) : outcome pane :=
  if editable then
    let cmd := pathname +:+ "." +:+ toStr (field item "name")
                        +:+ "=" +:+ toStr (field item "value") in
    Ok (issueCommand cmd st)
  else Ok st.

(** *** addParameter *)

(** One pass of the [for] loop of [addParameter] (line 83). *)
Definition addParameter_loop (cmd : string) (t : string) : string :=
  cmd +:+ "'" +:+ jQuery.trim t +:+ "',".

(** The value of [cmd] when [addParameter] reaches [issueCommand]
    (lines 79 to 106), each assignment to [cmd] a [let]. *)
Definition addParameter_cmd (target : string)
    (low high scaler adder name' : jsval) : string :=
  let targets := split "," target in
  let cmd :=
    if bool_decide (1 < length targets)%nat then
      let cmd := pathname +:+ ".add_parameter((" in
      let cmd := fold_left addParameter_loop targets cmd in
      cmd +:+ ")"
    else
      pathname +:+ ".add_parameter('" +:+ target +:+ "'" in
  let cmd := if truthy low then cmd +:+ ",low=" +:+ toStr low else cmd in
  let cmd := if truthy high then cmd +:+ ",high=" +:+ toStr high else cmd in
  let cmd := if truthy scaler then cmd +:+ ",scaler=" +:+ toStr scaler else cmd in
  let cmd := if truthy adder then cmd +:+ ",adder=" +:+ toStr adder else cmd in
  let cmd := if truthy name' then cmd +:+ ",name='" +:+ toStr name' +:+ "'" else cmd in
  cmd +:+ ");".

(** *** addParameter, clearParameters, loadData *)

(** [addParameter] as the dialog calls it. *)
Definition addParameter (target : string)
    (low high scaler adder name' : jsval) (st : pane) : pane :=
  issueCommand (addParameter_cmd target low high scaler adder name') st.

Definition clearParameters (st : pane) : pane :=
  issueCommand (pathname +:+ ".clear_parameters();") st.

Definition loadData (p : properties) (st : pane) : outcome pane :=
  let st :=
    if properties_truthy p then setData p st
    else
      let st := setData (Rows []) st in
      alert ("Error getting properties for " +:+ pathname
               +:+ " (" +:+ name +:+ ")") st in
  Ok (resizeCanvas st).

(** *** The candidate scan (lines 119 to 147) *)

(** A component of the workflow, and a component description. *)
Record comp : Type := Comp { comp_pathname : string }.
Record cjson : Type := CJson { Inputs : option (list jsobj) }.

(** [comp.pathname.split('.').slice(-1)[0]]; [split] never returns an
    empty array, so the last piece is always there. *)
Definition comppath_of (c : comp) : string :=
  default EmptyString (slice_last (split "." (comp_pathname c))).

(** The body of the inner [jQuery.each] (lines 133 to 143). *)
Definition findInputs_body (comppath : string) (sc : scan) (input : jsobj) : scan :=
  let low := JNull in
  let high := JNull in
  let low := if truthy (field input "low") then field input "low" else low in
  let high := if truthy (field input "high") then field input "high" else high in
  let fullpath := comppath +:+ "." +:+ toStr (field input "name") in
  Scan (candidates sc ++ [fullpath]) (<[fullpath := (low, high)]> (limits sc)).

(** The [findInputs] callback of one component. *)
Definition findInputs (comppath : string) (cj : cjson) (sc : scan) : outcome scan :=
  jQuery.each each_absent_throws (Inputs cj) (findInputs_body comppath) sc.

(** What a callback leaves behind: its result, or, when it raised, the
    state it started from (every [Throw] above precedes any update). *)
Definition settle {S : Type} (o : outcome S) (s : S) : S :=
  match o with
  | Ok s' => s'
  | Throw _ => s
  end.

(** The scan after the [findInputs] callbacks of the listed components
    have run, in the order their descriptions arrived. *)
Definition scan_responses (rs : list (comp * cjson)) (sc : scan) : scan :=
  fold_left (fun sc r => settle (findInputs (comppath_of r.1) r.2 sc) sc) rs sc.

(** *** The dialog (lines 152 to 231) *)

Inductive field_id : Type := FTarget | FLow | FHigh | FScaler | FAdder | FName.

(** What can happen to a dialog: text typed into one of its inputs, a
    suggestion of the autocomplete picked for the target input, one of
    its two buttons clicked, or the dialog widget's own close control
    (title bar or Escape). *)
Inductive dlg_event : Type :=
| TypeText (f : field_id) (text : string)
| SelectCandidate (i : nat)
| ClickOk
| ClickCancel
| Dismiss.

Definition set_field (f : field_id) (v : string) (fm : form) : form :=
  match f with
  | FTarget => Form v (f_low fm) (f_high fm) (f_scaler fm) (f_adder fm) (f_name fm)
  | FLow => Form (f_target fm) v (f_high fm) (f_scaler fm) (f_adder fm) (f_name fm)
  | FHigh => Form (f_target fm) (f_low fm) v (f_scaler fm) (f_adder fm) (f_name fm)
  | FScaler => Form (f_target fm) (f_low fm) (f_high fm) v (f_adder fm) (f_name fm)
  | FAdder => Form (f_target fm) (f_low fm) (f_high fm) (f_scaler fm) v (f_name fm)
  | FName => Form (f_target fm) (f_low fm) (f_high fm) (f_scaler fm) (f_adder fm) v
  end.

Definition set_form (fm : form) (d : dialog) : dialog :=
  Dialog (dlg_scan d) (dlg_pending d) fm (dlg_open d) (dlg_in_dom d).

Definition set_scan (sc : scan) (pending : list string) (d : dialog) : dialog :=
  Dialog sc pending (dlg_form d) (dlg_open d) (dlg_in_dom d).

(** [jQuery(this).dialog('close')] and [win.remove()]. *)
Definition dialog_close (d : dialog) : dialog :=
  Dialog (dlg_scan d) (dlg_pending d) (dlg_form d) false (dlg_in_dom d).

Definition win_remove (d : dialog) : dialog :=
  Dialog (dlg_scan d) (dlg_pending d) (dlg_form d) (dlg_open d) false.

(** The dialog as [findComps] builds it for a workflow: fresh
    [candidates] and [limits], one [getComponent] request per component,
    empty inputs, shown. *)
Definition dialog_new (workflow : list comp) : dialog :=
  Dialog scan_empty (map comppath_of workflow) form_empty true true.

(** One event on a dialog: the dialog afterwards and the calls of
    [callback] made, each with the six values read from the inputs. A
    dialog that is closed is not on screen and receives nothing. *)
Definition dlg_step (e : dlg_event) (d : dialog) : dialog * list form :=
  if dlg_open d then
    match e with
    | TypeText f text => (set_form (set_field f text (dlg_form d)) d, [])
    | SelectCandidate i =>
        match candidates (dlg_scan d) !! i with
        | Some v => (set_form (set_field FTarget v (dlg_form d)) d, [])
        | None => (d, [])
        end
    | ClickOk =>
        let d := dialog_close d in
        let call := dlg_form d in
        (win_remove d, [call])
    | ClickCancel => (win_remove (dialog_close d), [])
    | Dismiss => (dialog_close d, [])
    end
  else (d, []).

(** A dialog's life: the events it meets, in order. *)
Fixpoint dlg_run (es : list dlg_event) (d : dialog) : dialog * list form :=
  match es with
  | [] => (d, [])
  | e :: es =>
      let '(d1, calls1) := dlg_step e d in
      let '(d2, calls2) := dlg_run es d1 in
      (d2, calls1 ++ calls2)
  end.

(** *** The pane as an event loop *)

(** What [getWorkflow] hands to [findComps]: an array whose first
    element carries the workflow. The types [wdesc] and [comp] are those
    of a well-formed answer: the first element has a [workflow] list and
    every component in it a [pathname] text. An answer that lacks one of
    them raises at lines 125 to 127, before any dialog is built; such
    answers are outside these types. *)
Record wdesc : Type := WDesc { workflow : list comp }.

(** [findComps] on a well-formed answer: [wjson[0]] of an empty array is
    [undefined], and reading its [workflow] raises. *)
Definition findComps (wjson : list wdesc) (st : pane) : outcome pane :=
  match wjson with
  | [] => Throw TypeError
  | w :: _ => Ok (set_dialogs (dialogs st ++ [dialog_new (workflow w)]) st)
  end.

(** The [findInputs] closure of dialog [d] answering its [i]-th
    outstanding [getComponent] request. *)
Definition componentFetched (d i : nat) (cj : cjson) (st : pane) : pane :=
  match dialogs st !! d with
  | None => st
  | Some dl =>
      match dlg_pending dl !! i with
      | None => st
      | Some comppath =>
          let sc := settle (findInputs comppath cj (dlg_scan dl)) (dlg_scan dl) in
          set_dialogs (<[d := set_scan sc (delete i (dlg_pending dl)) dl]> (dialogs st)) st
      end
  end.

(** The callback handed to every dialog is [addParameter] (line 242). *)
Definition callback (fm : form) (st : pane) : pane :=
  addParameter (f_target fm) (JStr (f_low fm)) (JStr (f_high fm))
               (JStr (f_scaler fm)) (JStr (f_adder fm)) (JStr (f_name fm)) st.

Definition dialogEvent (d : nat) (e : dlg_event) (st : pane) : pane :=
  match dialogs st !! d with
  | None => st
  | Some dl =>
      let '(dl', calls) := dlg_step e dl in
      fold_left (fun st fm => callback fm st) calls
                (set_dialogs (<[d := dl']> (dialogs st)) st)
  end.

(** Everything that can reach the pane: [loadData] called, a click on the
    grid, a committed cell edit, the clear button, the answer to
    [getWorkflow] (the add button asked for it) or its failure, which
    [error_handler] only logs, the answer to a [getComponent], an event on
    a dialog, and the resizeCanvas event. *)
Inductive event : Type :=
| EvLoadData (p : properties)
| EvClick (c : option cellpos)
| EvCellChange (item : jsobj)
| EvClear
| EvWorkflow (wjson : list wdesc)
| EvWorkflowFailed
| EvComponent (d i : nat) (cj : cjson)
| EvDialog (d : nat) (e : dlg_event)
| EvResizeCanvas.

Definition step (e : event) (st : pane) : pane :=
  match e with
  | EvLoadData p => settle (loadData p st) st
  | EvClick c => settle (onClick c st) st
  | EvCellChange item => settle (onCellChange item st) st
  | EvClear => clearParameters st
  | EvWorkflow wjson => settle (findComps wjson st) st
  | EvWorkflowFailed => st
  | EvComponent d i cj => componentFetched d i cj st
  | EvDialog d e => dialogEvent d e st
  | EvResizeCanvas => resizeCanvas st
  end.

Definition run (es : list event) (st : pane) : pane :=
  fold_left (fun st e => step e st) es st.

(** *** The properties, in the words of the specification *)

(** The five optional fields, in the order the command lists them. *)
Inductive option_key : Type := KLow | KHigh | KScaler | KAdder | KName.

Definition key_text (k : option_key) : string :=
  match k with
  | KLow => "low"
  | KHigh => "high"
  | KScaler => "scaler"
  | KAdder => "adder"
  | KName => "name"
  end.

(** The clause of one field that is present: its value verbatim, the
    name's between single quotes. *)
Definition spec_clause (kv : option_key * jsval) : string :=
  match kv.1 with
  | KName => "," +:+ key_text kv.1 +:+ "='" +:+ toStr kv.2 +:+ "'"
  | _ => "," +:+ key_text kv.1 +:+ "=" +:+ toStr kv.2
  end.

Fixpoint concat_strings (l : list string) : string :=
  match l with
  | [] => ""
  | x :: l => x +:+ concat_strings l
  end.

(** The clause [addParameter] appends for one field. *)
Definition appended (k : option_key) (v : jsval) : string :=
  if truthy v then spec_clause (k, v) else "".

(** The values taken for an absent field: undefined or null, false,
    zero, the empty text. *)
Definition falsy_value (v : jsval) : Prop :=
  v = JUndefined ∨ v = JNull ∨ v = JBool false ∨ v = JNum 0 ∨ v = JStr "".

#[local] Instance falsy_value_dec (v : jsval) : Decision (falsy_value v).
Proof. unfold falsy_value. apply _. Defined.

(** The clauses of the fields that are present, in the fixed order. *)
Definition spec_option_clauses (low high scaler adder name' : jsval) : string :=
  concat_strings
    (map spec_clause
       (filter (fun kv => ¬ falsy_value kv.2)
          [(KLow, low); (KHigh, high); (KScaler, scaler);
           (KAdder, adder); (KName, name')])).

(** A member of a group as typed: the member itself between two runs
    of white space. *)
Record padded : Type := Padded {
  pad_left : string;
  member : string;
  pad_right : string
}.

Definition padded_text (p : padded) : string :=
  pad_left p +:+ member p +:+ pad_right p.

Definition first_white (s : string) : bool :=
  match s with
  | EmptyString => false
  | String c _ => is_white c
  end.

Fixpoint last_white (s : string) : bool :=
  match s with
  | EmptyString => false
  | String c EmptyString => is_white c
  | String _ s' => last_white s'
  end.

(** The padding is white space, and the member holds no comma and has
    no white space at either end. *)
Definition well_padded (p : padded) : Prop :=
  all_white (pad_left p) = true ∧ all_white (pad_right p) = true ∧
  contains "," (member p) = false ∧
  first_white (member p) = false ∧ last_white (member p) = false.

(** The tuple-style literal of a group: every member between single
    quotes and followed by a comma, the whole between parentheses. *)
Definition spec_group_literal (members : list string) : string :=
  "(" +:+ concat_strings (map (fun m => "'" +:+ m +:+ "',") members) +:+ ")".

(** The (component, input) pairs a scan goes through, in order: for
    each description that arrived, the inputs it lists; a description
    with no [Inputs] list has none. *)
Definition scanned_pairs (rs : list (comp * cjson)) : list (string * jsobj) :=
  flat_map (fun r => map (fun input => (comppath_of r.1, input))
                         (default [] (Inputs r.2))) rs.

(** The name of the candidate of a pair: short name, dot, input name. *)
Definition candidate_name (p : string * jsobj) : string :=
  p.1 +:+ "." +:+ toStr (field p.2 "name").

(** A bound as recorded: [null] when absent or falsy. *)
Definition spec_bound (v : jsval) : jsval :=
  if decide (falsy_value v) then JNull else v.

Definition spec_bounds (input : jsobj) : jsval * jsval :=
  (spec_bound (field input "low"), spec_bound (field input "high")).

(** What going through one pair records: its name pushed, its bounds
    stored under its name. *)
Definition record_pair (sc : scan) (p : string * jsobj) : scan :=
  Scan (candidates sc ++ [candidate_name p])
       (<[candidate_name p := spec_bounds p.2]> (limits sc)).

(** The event that closes a dialog: the first click on Ok or Cancel, or
    the first use of the close control, it meets. *)
Fixpoint closed_by (es : list dlg_event) : option dlg_event :=
  match es with
  | [] => None
  | e :: es =>
      match e with
      | ClickOk | ClickCancel | Dismiss => Some e
      | TypeText _ _ | SelectCandidate _ => closed_by es
      end
  end.

Definition is_loadData (e : event) : bool :=
  match e with
  | EvLoadData _ => true
  | _ => false
  end.

(** The candidates and limits dialog [d] owns, with its outstanding
    requests, if the dialog exists. *)
Definition scan_at (d : nat) (st : pane) : option (scan * list string) :=
  (fun dl => (dlg_scan dl, dlg_pending dl)) <$> dialogs st !! d.

(** The component descriptions that arrive for dialog [d] among the
    events, in order, each with the request it answers. *)
Fixpoint own_answers (d : nat) (es : list event) : list (nat * cjson) :=
  match es with
  | [] => []
  | EvComponent d' i cj :: es =>
      if bool_decide (d' = d) then (i, cj) :: own_answers d es
      else own_answers d es
  | _ :: es => own_answers d es
  end.

(** One description arriving at a scan: the [findInputs] closure of the
    request runs on it, and the request is no longer outstanding. *)
Definition answer (sp : scan * list string) (a : nat * cjson) : scan * list string :=
  match sp.2 !! a.1 with
  | None => sp
  | Some comppath => (settle (findInputs comppath a.2 sp.1) sp.1, delete a.1 sp.2)
  end.

(** *** Notions for the properties of the pane as a whole *)

(** The name a click on the delete cell would read: the [name] field of
    the row under the click, when there is such a row and such a field. *)
Definition clicked_name (st : pane) (p : cellpos) : option jsval :=
  getRow st (row p) ≫= fun r => r !! "name".

(** What the table shows after [loadData] was given [p]. *)
Definition shown (p : properties) : properties :=
  if properties_truthy p then p else Rows [].

(** The rows shown after the events, from the rows shown before: those of
    the last [loadData] among them. *)
Fixpoint rows_after (es : list event) (cur : properties) : properties :=
  match es with
  | [] => cur
  | EvLoadData p :: es => rows_after es (shown p)
  | _ :: es => rows_after es cur
  end.

(** The text of the alert of line 253. *)
Definition load_alert : string :=
  "Error getting properties for " +:+ pathname +:+ " (" +:+ name +:+ ")".

Definition is_failed_load (e : event) : bool :=
  match e with
  | EvLoadData p => negb (properties_truthy p)
  | _ => false
  end.

Definition redraws (e : event) : bool :=
  match e with
  | EvLoadData _ | EvResizeCanvas => true
  | _ => false
  end.

Definition opens_dialog (e : event) : bool :=
  match e with
  | EvWorkflow (_ :: _) => true
  | _ => false
  end.

Definition is_cellChange (e : event) : bool :=
  match e with
  | EvCellChange _ => true
  | _ => false
  end.

(** The events that can issue a command: a click on the grid, a cell
    edit, the clear button and the Ok of a dialog. Every other event is
    silent. *)
Definition silent (e : event) : bool :=
  match e with
  | EvClick _ | EvCellChange _ | EvClear | EvDialog _ ClickOk => false
  | _ => true
  end.

(** A command addressed to the pane's own entity. *)
Definition addressed (cmd : string) : Prop :=
  ∃ rest, cmd = pathname +:+ "." +:+ rest.

(** The clauses of the option inputs of a form whose text is not empty. *)
Definition spec_text_clauses (fm : form) : string :=
  concat_strings
    (map (fun kt => spec_clause (kt.1, JStr kt.2))
       (filter (fun kt : option_key * string => kt.2 ≠ "")
          [(KLow, f_low fm); (KHigh, f_high fm); (KScaler, f_scaler fm);
           (KAdder, f_adder fm); (KName, f_name fm)])).

(** The invariant of a scan: the names with bounds are the candidates. *)
Definition scan_consistent (sc : scan) : Prop :=
  dom (limits sc) = list_to_set (candidates sc).

(** *** Concrete inputs *)

(** A table with one row that has a target and no name. *)
Definition row_without_name : jsobj := {[ "target" := JStr "a.x" ]}.

Definition table_without_name : pane :=
  setData (Rows [row_without_name]) pane_init.

(** A row with a name and a target. *)
Definition row_named : jsobj :=
  <[ "name" := JStr "p1" ]> {[ "target" := JStr "a.x" ]}.

(** A dialog with one candidate gathered. *)
Definition dialog_one_candidate : dialog :=
  Dialog (Scan ["comp1.x"] {[ "comp1.x" := (JNull, JNull) ]}) []
         form_empty true true.

(** A workflow of two components: the first lists two inputs, one with a
    low bound; the second has no [Inputs] list. *)
Definition two_components : list (comp * cjson) :=
  [ (Comp "top.driver.comp1",
     CJson (Some [ {[ "name" := JStr "x" ]};
                   <[ "low" := JNum 1 ]> {[ "name" := JStr "y" ]} ]));
    (Comp "top.comp2", CJson None) ].

(** A dialog with its target, low and high typed. *)
Definition dialog_filled : dialog :=
  Dialog scan_empty [] (Form "comp1.x" "0" "10" "" "" "") true true.

Definition pane_with_dialog : pane := set_dialogs [dialog_filled] pane_init.

(** A scan with one candidate gathered, and a pane whose one dialog has
    that scan and still waits for the description of a second component. *)
Definition scan_one_gathered : scan :=
  Scan ["comp1.x"] {[ "comp1.x" := (JNum 1, JNull) ]}.

Definition pane_one_gathered : pane :=
  set_dialogs [Dialog scan_one_gathered ["comp2"] form_empty true true]
              pane_init.

(** A component description with one input, and one with another. *)
Definition component_x : cjson := CJson (Some [ {[ "name" := JStr "x" ]} ]).
Definition component_y : cjson := CJson (Some [ {[ "name" := JStr "y" ]} ]).

(** ** Facts about the built-ins *)

Lemma append_nil_l (t : string) : "" +:+ t = t.
Proof. reflexivity. Qed.

Lemma append_cons (c : Ascii.ascii) (s t : string) :
  String c s +:+ t = String c (s +:+ t).
Proof. reflexivity. Qed.

Lemma append_nil_r (s : string) : s +:+ "" = s.
Proof.
  induction s as [|c s IH]; [reflexivity|].
  rewrite append_cons, IH. reflexivity.
Qed.

Lemma append_assoc (a b c : string) : (a +:+ b) +:+ c = a +:+ (b +:+ c).
Proof.
  induction a as [|x a IH]; [reflexivity|].
  rewrite !append_cons, IH. reflexivity.
Qed.

Lemma split_not_nil (sep : Ascii.ascii) (s : string) : split sep s ≠ [].
Proof.
  destruct s as [|c s]; simpl; [discriminate|].
  case_bool_decide; [discriminate|].
  destruct (split sep s); discriminate.
Qed.

Lemma split_cons_other (sep c : Ascii.ascii) (s : string) :
  c ≠ sep →
  ∃ p ps, split sep s = p :: ps ∧ split sep (String c s) = String c p :: ps.
Proof.
  intros Hc. simpl. rewrite bool_decide_false by done.
  destruct (split sep s) as [|p ps] eqn:E.
  - by apply split_not_nil in E.
  - eauto.
Qed.

(** [split] returns more than one piece exactly when the separator
    occurs. *)
Lemma split_many_iff (sep : Ascii.ascii) (s : string) :
  bool_decide (1 < length (split sep s))%nat = contains sep s.
Proof.
  induction s as [|c s IH]; [reflexivity|].
  destruct (decide (c = sep)) as [->|Hc].
  - simpl. rewrite !(bool_decide_true (sep = sep)) by done. simpl.
    apply bool_decide_true.
    pose proof (split_not_nil sep s) as Hn.
    destruct (split sep s); [done|]. simpl length. lia.
  - destruct (split_cons_other sep c s Hc) as (p & ps & E1 & E2).
    rewrite E2. rewrite E1 in IH. simpl in *.
    rewrite (bool_decide_false (c = sep)) by done. exact IH.
Qed.

Lemma truthy_false_iff (v : jsval) : truthy v = false ↔ falsy_value v.
Proof.
  unfold falsy_value. split.
  - destruct v as [| |[]|n|s]; simpl; intros H; try discriminate; auto.
    + apply negb_false_iff, Z.eqb_eq in H. subst. auto 10.
    + apply negb_false_iff, bool_decide_eq_true in H. subst. auto 10.
  - intros [->|[->|[->|[->| ->]]]]; reflexivity.
Qed.

(** ** The remove command *)

(** C1, as the code has it: an identity holding a comma is emitted
    between the parentheses of the call as it stands, with no quotes and
    no parentheses of its own; an identity with no comma is emitted
    between double quotes. *)
Theorem remove_cmd_text (delname : string) :
  remove_cmd delname =
    if contains "," delname
    then pathname +:+ ".remove_parameter(" +:+ delname +:+ ");"
    else pathname +:+ ".remove_parameter(" +:+ dquote +:+ delname +:+ dquote +:+ ");".
Proof.
  unfold remove_cmd. rewrite split_many_iff.
  destruct (contains "," delname); reflexivity.
Qed.

(** ** The add command *)

Lemma spec_clauses_cons (k : option_key) (v : jsval) (l : list (option_key * jsval)) :
  concat_strings (map spec_clause (filter (fun kv => ¬ falsy_value kv.2) ((k, v) :: l)))
  = appended k v +:+
    concat_strings (map spec_clause (filter (fun kv => ¬ falsy_value kv.2) l)).
Proof.
  unfold appended. rewrite filter_cons. simpl.
  destruct (truthy v) eqn:Ht.
  - rewrite decide_True; [reflexivity|].
    intros Hf%truthy_false_iff. congruence.
  - rewrite decide_False; [reflexivity|].
    intros Hn. apply Hn, truthy_false_iff, Ht.
Qed.

Lemma spec_option_clauses_unfold (low high scaler adder name' : jsval) :
  spec_option_clauses low high scaler adder name' =
    appended KLow low +:+ appended KHigh high +:+ appended KScaler scaler
      +:+ appended KAdder adder +:+ appended KName name'.
Proof.
  unfold spec_option_clauses. rewrite !spec_clauses_cons.
  rewrite filter_nil. simpl. rewrite append_nil_r. reflexivity.
Qed.

(** The five [if]s of lines 91 to 105 and the closing text, on any
    command begun. *)
Lemma addParameter_options (cmd : string) (low high scaler adder name' : jsval) :
  (let cmd := if truthy low then cmd +:+ ",low=" +:+ toStr low else cmd in
   let cmd := if truthy high then cmd +:+ ",high=" +:+ toStr high else cmd in
   let cmd := if truthy scaler then cmd +:+ ",scaler=" +:+ toStr scaler else cmd in
   let cmd := if truthy adder then cmd +:+ ",adder=" +:+ toStr adder else cmd in
   let cmd := if truthy name' then cmd +:+ ",name='" +:+ toStr name' +:+ "'" else cmd in
   cmd +:+ ");")
  = cmd +:+ spec_option_clauses low high scaler adder name' +:+ ");".
Proof.
  rewrite spec_option_clauses_unfold. unfold appended, spec_clause. cbv zeta.
  destruct (truthy low), (truthy high), (truthy scaler), (truthy adder),
    (truthy name'); simpl fst; simpl snd; simpl key_text;
    rewrite ?append_assoc, ?append_nil_l, ?append_nil_r; reflexivity.
Qed.

(** C2: scenario A. [addParameter] is only ever called by the dialog,
    with the texts of its inputs (lines 215 and 216). With target comp1.x,
    low 0, high 10 and scaler, adder and name left empty (or left out) the
    command is the add of comp1.x with low=0 and high=10: the text 0 is
    not empty, so its clause is kept. *)
Theorem addParameter_scenario_A :
  addParameter_cmd "comp1.x" (JStr "0") (JStr "10") (JStr "") (JStr "") (JStr "")
    = pathname +:+ ".add_parameter('comp1.x',low=0,high=10);"
  ∧ addParameter_cmd "comp1.x" (JStr "0") (JStr "10")
                     JUndefined JUndefined JUndefined
    = pathname +:+ ".add_parameter('comp1.x',low=0,high=10);"
  ∧ ∀ st, callback (Form "comp1.x" "0" "10" "" "" "") st
          = issueCommand
              (pathname +:+ ".add_parameter('comp1.x',low=0,high=10);") st.
Proof.
  assert (Hcmd : addParameter_cmd "comp1.x" (JStr "0") (JStr "10")
                   (JStr "") (JStr "") (JStr "")
                 = pathname +:+ ".add_parameter('comp1.x',low=0,high=10);").
  { unfold addParameter_cmd. simpl. rewrite ?append_assoc. reflexivity. }
  split_and!.
  - exact Hcmd.
  - unfold addParameter_cmd. simpl. rewrite ?append_assoc. reflexivity.
  - intros st. unfold callback, addParameter. simpl f_target. simpl f_low.
    simpl f_high. simpl f_scaler. simpl f_adder. simpl f_name.
    by rewrite Hcmd.
Qed.

(** C3: for a target with no comma the command is the path, the quoted
    target, then one clause for each of low, high, scaler, adder and name
    whose value is not falsy (undefined or null, false, zero, empty
    text), in that order, each with its value verbatim and the name's
    between single quotes. *)
Theorem addParameter_single_target (target : string)
    (low high scaler adder name' : jsval) :
  contains "," target = false →
  addParameter_cmd target low high scaler adder name' =
    pathname +:+ ".add_parameter('" +:+ target +:+ "'"
      +:+ spec_option_clauses low high scaler adder name' +:+ ");".
Proof.
  intros Hsingle. unfold addParameter_cmd.
  rewrite split_many_iff, Hsingle. cbv zeta.
  rewrite (addParameter_options _ low high scaler adder name').
  rewrite !append_assoc. reflexivity.
Qed.

(** *** Groups *)

Lemma contains_app (c : Ascii.ascii) (a b : string) :
  contains c (a +:+ b) = contains c a || contains c b.
Proof.
  induction a as [|x a IH]; [reflexivity|].
  rewrite append_cons. simpl. rewrite IH. apply orb_assoc.
Qed.

Lemma all_white_no_comma (s : string) :
  all_white s = true → contains "," s = false.
Proof.
  induction s as [|c s IH]; [reflexivity|]. simpl.
  intros [Hc Hs]%andb_true_iff. rewrite (IH Hs), orb_false_r.
  apply bool_decide_false. intros ->. discriminate Hc.
Qed.

Lemma split_single (sep : Ascii.ascii) (s : string) :
  contains sep s = false → split sep s = [s].
Proof.
  induction s as [|c s IH]; [reflexivity|]. simpl.
  intros [Hc Hs]%orb_false_iff. rewrite Hc, (IH Hs). reflexivity.
Qed.

Lemma split_app_sep (sep : Ascii.ascii) (p rest : string) :
  contains sep p = false →
  split sep (p +:+ String sep rest) = p :: split sep rest.
Proof.
  induction p as [|c p IH]; intros Hp.
  - rewrite append_nil_l. simpl. rewrite bool_decide_true by done. reflexivity.
  - simpl in Hp. apply orb_false_iff in Hp as [Hc Hp].
    rewrite append_cons. simpl. rewrite Hc, (IH Hp). reflexivity.
Qed.

(** Splitting what [join] built from pieces free of the separator gives
    the pieces back. *)
Lemma split_join (sep : Ascii.ascii) (ps : list string) :
  ps ≠ [] → Forall (fun p => contains sep p = false) ps →
  split sep (join sep ps) = ps.
Proof.
  induction ps as [|p ps IH]; [done|]. intros _ Hall.
  apply Forall_cons in Hall as [Hp Hps].
  destruct ps as [|q ps].
  - simpl. by apply split_single.
  - change (join sep (p :: q :: ps)) with (p +:+ String sep (join sep (q :: ps))).
    rewrite split_app_sep by done. f_equal. by apply IH.
Qed.

Lemma trim_left_white (l s : string) :
  all_white l = true → trim_left (l +:+ s) = trim_left s.
Proof.
  induction l as [|c l IH]; [reflexivity|]. simpl.
  intros [Hc Hl]%andb_true_iff. rewrite ?append_cons. simpl.
  rewrite Hc. by apply IH.
Qed.

Lemma trim_left_all_white (s : string) : all_white s = true → trim_left s = "".
Proof.
  intros H. rewrite <- (append_nil_r s). by rewrite trim_left_white.
Qed.

Lemma trim_right_all_white (s : string) : all_white s = true → trim_right s = "".
Proof. destruct s as [|c s]; [reflexivity|]. simpl. by intros ->. Qed.

Lemma trim_right_cons (c : Ascii.ascii) (s : string) :
  trim_right (String c s) =
    if all_white (String c s) then "" else String c (trim_right s).
Proof. reflexivity. Qed.

Lemma last_white_cons (c : Ascii.ascii) (m : string) :
  m ≠ "" → last_white (String c m) = last_white m.
Proof. by destruct m. Qed.

Lemma not_all_white (m r : string) :
  m ≠ "" → last_white m = false → all_white (m +:+ r) = false.
Proof.
  induction m as [|c m IH]; [done|]. intros _ Hl.
  rewrite append_cons. simpl all_white.
  destruct (decide (m = "")) as [->|Hm].
  - simpl in Hl. by rewrite Hl.
  - rewrite last_white_cons in Hl by done. rewrite (IH Hm Hl).
    apply andb_false_r.
Qed.

Lemma trim_right_bare (m r : string) :
  last_white m = false → all_white r = true → trim_right (m +:+ r) = m.
Proof.
  induction m as [|c m IH]; intros Hl Hr.
  - rewrite append_nil_l. by apply trim_right_all_white.
  - rewrite append_cons, trim_right_cons, <- append_cons.
    rewrite not_all_white by done. f_equal. apply IH; [|done].
    destruct m; [reflexivity|]. by rewrite last_white_cons in Hl.
Qed.

(** Trimming a padded member gives the member. *)
Lemma trim_padded (p : padded) :
  well_padded p → jQuery.trim (padded_text p) = member p.
Proof.
  intros (Hl & Hr & _ & Hf & Hla). unfold jQuery.trim, padded_text.
  rewrite trim_left_white by done.
  destruct (member p) as [|c m] eqn:Em.
  - rewrite append_nil_l, trim_left_all_white by done. reflexivity.
  - rewrite append_cons. simpl trim_left. simpl in Hf. rewrite Hf.
    rewrite <- append_cons. by apply trim_right_bare.
Qed.

Lemma padded_no_comma (p : padded) :
  well_padded p → contains "," (padded_text p) = false.
Proof.
  intros (Hl & Hr & Hm & _). unfold padded_text.
  rewrite !contains_app, Hm, !all_white_no_comma by done. reflexivity.
Qed.

(** The [for] loop of lines 82 to 84 appends one quoted, trimmed piece
    per target. *)
Lemma addParameter_loop_fold (targets : list string) (cmd : string) :
  fold_left addParameter_loop targets cmd =
    cmd +:+ concat_strings (map (fun t => "'" +:+ jQuery.trim t +:+ "',") targets).
Proof.
  revert cmd. induction targets as [|t ts IH]; intros cmd; simpl.
  - by rewrite append_nil_r.
  - rewrite IH. unfold addParameter_loop. by rewrite !append_assoc.
Qed.

Lemma quoted_members (ps : list padded) :
  Forall well_padded ps →
  concat_strings (map (fun t => "'" +:+ jQuery.trim t +:+ "',") (map padded_text ps))
  = concat_strings (map (fun m => "'" +:+ m +:+ "',") (map member ps)).
Proof.
  induction 1 as [|p ps Hp Hps IH]; [reflexivity|].
  simpl. rewrite trim_padded by done. by rewrite IH.
Qed.

(** Every target that holds a comma gives the literal of its pieces,
    each trimmed. *)
Lemma addParameter_group_pieces (target : string)
    (low high scaler adder name' : jsval) :
  contains "," target = true →
  addParameter_cmd target low high scaler adder name' =
    pathname +:+ ".add_parameter("
      +:+ spec_group_literal (map jQuery.trim (split "," target))
      +:+ spec_option_clauses low high scaler adder name' +:+ ");".
Proof.
  intros Hgroup. unfold addParameter_cmd.
  rewrite split_many_iff, Hgroup. cbv zeta.
  rewrite (addParameter_options _ low high scaler adder name').
  rewrite addParameter_loop_fold.
  unfold spec_group_literal. rewrite map_map, !append_assoc. reflexivity.
Qed.

Lemma join_split (sep : Ascii.ascii) (s : string) : join sep (split sep s) = s.
Proof.
  induction s as [|c s IH]; [reflexivity|].
  destruct (decide (c = sep)) as [->|Hc].
  - simpl split. rewrite bool_decide_true by done.
    pose proof (split_not_nil sep s) as Hn.
    destruct (split sep s) as [|p ps] eqn:E; [done|].
    change (join sep ("" :: p :: ps)) with ("" +:+ String sep (join sep (p :: ps))).
    by rewrite IH.
  - destruct (split_cons_other sep c s Hc) as (p & ps & E1 & E2).
    rewrite E2. rewrite E1 in IH. destruct ps as [|q ps].
    + simpl in *. by rewrite IH.
    + change (join sep (String c p :: q :: ps))
        with (String c (p +:+ String sep (join sep (q :: ps)))).
      change (join sep (p :: q :: ps))
        with (p +:+ String sep (join sep (q :: ps))) in IH.
      by rewrite IH.
Qed.

Lemma split_pieces_clean (sep : Ascii.ascii) (s : string) :
  Forall (fun p => contains sep p = false) (split sep s).
Proof.
  induction s as [|c s IH]; [by repeat constructor|].
  destruct (decide (c = sep)) as [->|Hc].
  - simpl split. rewrite bool_decide_true by done. by constructor.
  - destruct (split_cons_other sep c s Hc) as (p & ps & E1 & E2).
    rewrite E2. rewrite E1 in IH. apply Forall_cons in IH as [Hp Hps].
    constructor; [|done]. simpl. by rewrite bool_decide_false, Hp.
Qed.

Lemma trim_left_lead (t : string) :
  ∃ l, all_white l = true ∧ t = l +:+ trim_left t.
Proof.
  induction t as [|c t (l & Hl & Ht)]; [by exists ""|].
  simpl. destruct (is_white c) eqn:Hc.
  - exists (String c l). simpl. rewrite Hc, Hl, append_cons. by rewrite <- Ht.
  - by exists "".
Qed.

Lemma trim_right_trail (s : string) :
  ∃ r, all_white r = true ∧ s = trim_right s +:+ r.
Proof.
  induction s as [|c s (r & Hr & Hs)]; [by exists ""|].
  rewrite trim_right_cons. destruct (all_white (String c s)) eqn:Hw.
  - by exists (String c s).
  - exists r. by rewrite append_cons, <- Hs.
Qed.

Lemma trim_right_nil (s : string) : trim_right s = "" → all_white s = true.
Proof.
  destruct s as [|c s]; [done|]. rewrite trim_right_cons.
  by destruct (all_white (String c s)).
Qed.

Lemma trim_right_last (s : string) : last_white (trim_right s) = false.
Proof.
  induction s as [|c s IH]; [done|].
  rewrite trim_right_cons. destruct (all_white (String c s)) eqn:Hw; [done|].
  destruct (decide (trim_right s = "")) as [E|E].
  - rewrite E. simpl in *. apply trim_right_nil in E.
    by rewrite E, andb_true_r in Hw.
  - by rewrite last_white_cons.
Qed.

Lemma trim_left_first (t : string) : first_white (trim_left t) = false.
Proof.
  induction t as [|c t IH]; [done|]. simpl.
  destruct (is_white c) eqn:Hc; [done|]. simpl. exact Hc.
Qed.

Lemma trim_right_first (s : string) :
  first_white s = false → first_white (trim_right s) = false.
Proof.
  destruct s as [|c s]; [done|]. intros Hc. simpl in Hc.
  rewrite trim_right_cons. simpl all_white. by rewrite Hc.
Qed.

(** Every piece free of commas is a member between two runs of white
    space. *)
Lemma piece_padded (t : string) :
  contains "," t = false → ∃ p, well_padded p ∧ padded_text p = t.
Proof.
  intros Ht.
  destruct (trim_left_lead t) as (l & Hl & El).
  destruct (trim_right_trail (trim_left t)) as (r & Hr & Er).
  exists (Padded l (jQuery.trim t) r). unfold well_padded, padded_text, jQuery.trim.
  simpl. split_and!; try done.
  - rewrite El, Er, !contains_app in Ht.
    by apply orb_false_iff in Ht as [_ [? _]%orb_false_iff].
  - apply trim_right_first, trim_left_first.
  - apply trim_right_last.
  - by rewrite <- Er.
Qed.

(** So every target that holds a comma is two or more padded members
    joined by commas. *)
Lemma group_target_padded (target : string) :
  contains "," target = true →
  ∃ ps, (2 ≤ length ps)%nat ∧ Forall well_padded ps
        ∧ join "," (map padded_text ps) = target.
Proof.
  intros Hgroup.
  assert (Hps : ∀ ts, Forall (fun p => contains "," p = false) ts →
            ∃ ps, Forall well_padded ps ∧ map padded_text ps = ts).
  { induction 1 as [|t ts Ht Hts (ps & Hps & E)]; [by exists []|].
    destruct (piece_padded t Ht) as (p & Hp & Ep).
    exists (p :: ps). split; [by constructor|]. simpl. by rewrite Ep, E. }
  destruct (Hps _ (split_pieces_clean "," target)) as (ps & Hwp & E).
  exists ps. split_and!; [|done|by rewrite E, join_split].
  rewrite <- (length_map padded_text), E.
  pose proof (split_many_iff "," target) as Hm. rewrite Hgroup in Hm.
  apply bool_decide_eq_true in Hm. lia.
Qed.

(** C4: a target made of two or more members, each with white space
    around it, joined by commas, gives the tuple-style literal of exactly
    those members, trimmed, single-quoted and in their order, followed by
    the option clauses. By [group_target_padded] every target that holds
    a comma is of that form. *)
Theorem addParameter_group (ps : list padded)
    (low high scaler adder name' : jsval) :
  (2 ≤ length ps)%nat →
  Forall well_padded ps →
  addParameter_cmd (join "," (map padded_text ps)) low high scaler adder name' =
    pathname +:+ ".add_parameter(" +:+ spec_group_literal (map member ps)
      +:+ spec_option_clauses low high scaler adder name' +:+ ");".
Proof.
  intros Hlen Hall. unfold addParameter_cmd.
  assert (Hsplit : split "," (join "," (map padded_text ps)) = map padded_text ps).
  { apply split_join.
    - destruct ps; [simpl in Hlen; lia|done].
    - apply Forall_map. eapply Forall_impl; [exact Hall|].
      intros p Hp. by apply padded_no_comma. }
  rewrite Hsplit. cbv zeta.
  rewrite bool_decide_true by (rewrite length_map; lia).
  rewrite (addParameter_options _ low high scaler adder name').
  rewrite addParameter_loop_fold, (quoted_members ps Hall).
  unfold spec_group_literal. rewrite !append_assoc. reflexivity.
Qed.

(** ** The delete control *)

(** C5, as the code has it: the identity of a row is its [name] field
    and nothing else. Whatever the row's [target] holds, a click on the
    delete cell issues the remove command of the name when the name is a
    string, and raises, issuing nothing, when the row has no name. *)
Theorem onClick_identity (st : pane) (rows : list jsobj) (i : nat)
    (r : jsobj) (target' : jsval) :
  rows !! i = Some r →
  let st' := setData (Rows (<[i := <["target" := target']> r]> rows)) st in
  (∀ delname, r !! "name" = Some (JStr delname) →
     onClick (Some (CellPos i 0)) st' = Ok (issueCommand (remove_cmd delname) st'))
  ∧ (r !! "name" = None → onClick (Some (CellPos i 0)) st' = Throw TypeError).
Proof.
  intros Hr st'.
  assert (Hrow : getRow st' i = Some (<["target" := target']> r)).
  { unfold getRow, st'. simpl. apply list_lookup_insert_eq.
    by eapply lookup_lt_Some. }
  assert (Hname : field (<["target" := target']> r) "name" = field r "name").
  { unfold field. by rewrite lookup_insert_ne. }
  unfold onClick. simpl cell. simpl row.
  rewrite bool_decide_true by done. rewrite Hrow, Hname. unfold field.
  split.
  - intros delname ->. reflexivity.
  - intros ->. reflexivity.
Qed.

(** ** loadData *)

(** C7: [loadData] never raises. Given null, undefined or any other
    falsy value it empties the table and shows one alert that names the
    pane's path; given rows it stores exactly those rows and shows
    nothing. No command is issued either way. *)
Theorem loadData_fail_soft (p : properties) (st : pane) :
  ∃ st', loadData p st = Ok st'
    ∧ issued st' = issued st
    ∧ (properties_truthy p = false →
         grid_data st' = Rows [] ∧
         alerts st' = alerts st ++
           ["Error getting properties for " +:+ pathname +:+ " (" +:+ name +:+ ")"])
    ∧ (properties_truthy p = true → grid_data st' = p ∧ alerts st' = alerts st)
    ∧ properties_truthy (NotRows JNull) = false
    ∧ properties_truthy (NotRows JUndefined) = false
    ∧ (∀ rows, properties_truthy (Rows rows) = true).
Proof.
  unfold loadData. eexists. split; [reflexivity|].
  destruct (properties_truthy p); simpl; repeat split; try done.
Qed.

(** ** The dialog *)

Lemma dlg_run_closed (es : list dlg_event) (d : dialog) :
  dlg_open d = false → dlg_run es d = (d, []).
Proof.
  intros Hc. induction es as [|e es IH]; [reflexivity|].
  simpl. unfold dlg_step. rewrite Hc, IH. reflexivity.
Qed.

Lemma dlg_run_cons (e : dlg_event) (es : list dlg_event) (d : dialog) :
  (dlg_run (e :: es) d).2 = (dlg_step e d).2 ++ (dlg_run es (dlg_step e d).1).2.
Proof.
  simpl. destruct (dlg_step e d) as [d1 c1]. simpl.
  destruct (dlg_run es d1) as [d2 c2]. reflexivity.
Qed.

(** C8: over the whole life of a dialog the callback is called at most
    once; it is called exactly once when, and only when, the event that
    closes the dialog is the click on Ok; a dialog closed by Cancel, or
    by its close control, or never closed, makes no call. *)
Theorem dialog_callback_once (d : dialog) (es : list dlg_event) :
  dlg_open d = true →
  let calls := (dlg_run es d).2 in
  (length calls ≤ 1)%nat
  ∧ (length calls = 1%nat ↔ closed_by es = Some ClickOk)
  ∧ (closed_by es = Some ClickCancel → calls = [])
  ∧ (closed_by es ≠ Some ClickOk → calls = []).
Proof.
  revert d. induction es as [|e es IH]; intros d Hopen.
  - simpl. repeat split; try done; lia.
  - cbv zeta. rewrite dlg_run_cons. unfold dlg_step. rewrite Hopen.
    destruct e as [f text|i| | |]; simpl closed_by.
    + apply (IH (set_form _ d)). exact Hopen.
    + destruct (candidates (dlg_scan d) !! i).
      * apply (IH (set_form _ d)). exact Hopen.
      * apply (IH d). exact Hopen.
    + simpl. rewrite dlg_run_closed by reflexivity. simpl.
      repeat split; try done; lia.
    + simpl. rewrite dlg_run_closed by reflexivity. simpl.
      repeat split; try done; lia.
    + simpl. rewrite dlg_run_closed by reflexivity. simpl.
      repeat split; try done; lia.
Qed.

(** ** The candidate scan *)

Lemma spec_bound_truthy (v : jsval) :
  (if truthy v then v else JNull) = spec_bound v.
Proof.
  unfold spec_bound. destruct (truthy v) eqn:Ht.
  - rewrite decide_False; [done|]. intros Hf%truthy_false_iff. congruence.
  - rewrite decide_True; [done|]. by apply truthy_false_iff.
Qed.

Lemma findInputs_body_spec (comppath : string) (sc : scan) (input : jsobj) :
  findInputs_body comppath sc input =
    Scan (candidates sc ++ [candidate_name (comppath, input)])
         (<[candidate_name (comppath, input) := spec_bounds input]> (limits sc)).
Proof.
  unfold findInputs_body, spec_bounds, candidate_name. cbv zeta.
  by rewrite !spec_bound_truthy.
Qed.

Lemma findInputs_settled (comppath : string) (cj : cjson) (sc : scan) :
  settle (findInputs comppath cj sc) sc =
    fold_left record_pair
      (map (fun input => (comppath, input)) (default [] (Inputs cj))) sc.
Proof.
  unfold findInputs, jQuery.each. destruct (Inputs cj) as [inputs|]; simpl.
  - revert sc. induction inputs as [|input inputs IH]; intros sc; [reflexivity|].
    simpl. rewrite findInputs_body_spec. apply IH.
  - by destruct each_absent_throws.
Qed.

Lemma scan_responses_pairs (rs : list (comp * cjson)) (sc : scan) :
  scan_responses rs sc = fold_left record_pair (scanned_pairs rs) sc.
Proof.
  revert sc. induction rs as [|r rs IH]; intros sc; [reflexivity|].
  unfold scan_responses, scanned_pairs in *. simpl.
  rewrite fold_left_app, findInputs_settled. apply IH.
Qed.

Lemma record_pairs_candidates (ps : list (string * jsobj)) (sc : scan) :
  candidates (fold_left record_pair ps sc) = candidates sc ++ map candidate_name ps.
Proof.
  revert sc. induction ps as [|p ps IH]; intros sc; simpl.
  - by rewrite app_nil_r.
  - rewrite IH. simpl. by rewrite <- app_assoc.
Qed.

Lemma record_pairs_untouched (ps : list (string * jsobj)) (sc : scan) (k : string) :
  k ∉ map candidate_name ps →
  limits (fold_left record_pair ps sc) !! k = limits sc !! k.
Proof.
  revert sc. induction ps as [|p ps IH]; intros sc Hk; [reflexivity|].
  simpl in *. apply not_elem_of_cons in Hk as [Hne Hk].
  rewrite IH by done. simpl. by rewrite lookup_insert_ne.
Qed.

(** The last pair of a name decides the bounds stored under it. *)
Lemma record_pairs_last (l1 l2 : list (string * jsobj)) (p : string * jsobj)
    (sc : scan) :
  candidate_name p ∉ map candidate_name l2 →
  limits (fold_left record_pair (l1 ++ p :: l2) sc) !! candidate_name p
    = Some (spec_bounds p.2).
Proof.
  intros Hlast. rewrite fold_left_app. simpl.
  rewrite record_pairs_untouched by done. simpl. apply lookup_insert_eq.
Qed.

Lemma last_cons_cons {A : Type} (x y : A) (l : list A) :
  last (x :: y :: l) = last (y :: l).
Proof. reflexivity. Qed.




(** ** The pane as a whole *)

Lemma callbacks_frame (calls : list form) (st : pane) :
  let st' := fold_left (fun st fm => callback fm st) calls st in
  grid_data st' = grid_data st ∧ dialogs st' = dialogs st
  ∧ outer_scan st' = outer_scan st.
Proof.
  revert st. induction calls as [|fm calls IH]; intros st; [done|].
  simpl. destruct (IH (callback fm st)) as (-> & -> & ->). done.
Qed.

Lemma settle_frame {A : Type} (f : pane → A) (o : outcome pane) (st : pane) :
  (∀ st', o = Ok st' → f st' = f st) → f (settle o st) = f st.
Proof. destruct o; simpl; auto. Qed.

Lemma onClick_issue (c : option cellpos) (st st' : pane) :
  onClick c st = Ok st' →
  st' = st ∨ ∃ delname, st' = issueCommand (remove_cmd delname) st.
Proof.
  unfold onClick. intros H.
  repeat (case_match; simplify_eq); eauto.
Qed.

Lemma onCellChange_issue (item : jsobj) (st st' : pane) :
  onCellChange item st = Ok st' → st' = st ∨ ∃ cmd, st' = issueCommand cmd st.
Proof.
  unfold onCellChange. destruct editable; intros; simplify_eq; eauto.
Qed.

(** A handler that returned, or raised, left the projection [f] alone. *)
Ltac handler_frame f :=
  apply (settle_frame f);
  first [ by intros ? [->|[? ->]]%onClick_issue
        | by intros ? [->|[? ->]]%onCellChange_issue
        | unfold loadData; intros ? [= <-];
          by destruct (properties_truthy _) ].

Lemma dlg_step_scan (e : dlg_event) (dl : dialog) :
  dlg_scan (dlg_step e dl).1 = dlg_scan dl
  ∧ dlg_pending (dlg_step e dl).1 = dlg_pending dl.
Proof.
  unfold dlg_step. repeat (case_match; simplify_eq); done.
Qed.

(** An event that is not a description arriving for dialog [d] leaves
    the scan of dialog [d] as it is. *)
Lemma step_scan_at_other (e : event) (st : pane) (d : nat)
    (sp : scan * list string) :
  scan_at d st = Some sp → own_answers d [e] = [] →
  scan_at d (step e st) = Some sp.
Proof.
  unfold scan_at. intros Hsp Hother.
  destruct e as [p|c|item| |wjson| |d' i cj|d' e| ]; cbv beta iota delta [step].
  - rewrite (settle_frame dialogs); [done|].
    unfold loadData. intros ? [= <-]. by destruct (properties_truthy p).
  - rewrite (settle_frame dialogs); [done|].
    by intros st' [->|[? ->]]%onClick_issue.
  - rewrite (settle_frame dialogs); [done|].
    by intros st' [->|[? ->]]%onCellChange_issue.
  - done.
  - destruct wjson as [|w ws]; [done|]. simpl.
    destruct (dialogs st !! d) as [dl|] eqn:Hd; [|done].
    by rewrite (lookup_app_l_Some _ _ _ _ Hd).
  - done.
  - simpl in Hother. case_bool_decide as Hdd; [done|].
    unfold componentFetched. repeat case_match; try done.
    simpl. by rewrite list_lookup_insert_ne.
  - unfold dialogEvent. destruct (dialogs st !! d') as [dl0|] eqn:Hd'; [|done].
    destruct (dlg_step e dl0) as [dl' calls] eqn:Hstep.
    destruct (callbacks_frame calls (set_dialogs (<[d':=dl']> (dialogs st)) st))
      as (_ & -> & _). simpl.
    destruct (decide (d' = d)) as [->|Hne].
    + rewrite list_lookup_insert_eq by (by eapply lookup_lt_Some).
      rewrite Hd' in Hsp. simpl in *.
      destruct (dlg_step_scan e dl0) as [E1 E2]. rewrite Hstep in E1, E2.
      simpl in E1, E2. by rewrite E1, E2.
    + by rewrite list_lookup_insert_ne.
  - done.
Qed.

(** A description arriving for dialog [d] acts on the scan of dialog
    [d] alone. *)
Lemma step_scan_at_own (i : nat) (cj : cjson) (st : pane) (d : nat)
    (sp : scan * list string) :
  scan_at d st = Some sp →
  scan_at d (step (EvComponent d i cj) st) = Some (answer sp (i, cj)).
Proof.
  unfold scan_at, answer. simpl. unfold componentFetched.
  destruct (dialogs st !! d) as [dl|] eqn:Hd; [|done].
  intros [= <-]. simpl.
  destruct (dlg_pending dl !! i) as [comppath|] eqn:Hi.
  - simpl. rewrite list_lookup_insert_eq by (by eapply lookup_lt_Some). done.
  - by rewrite Hd.
Qed.

Lemma run_app (es1 es2 : list event) (st : pane) :
  run (es1 ++ es2) st = run es2 (run es1 st).
Proof. apply fold_left_app. Qed.

Lemma run_scan_at (es : list event) (st : pane) (d : nat)
    (sp : scan * list string) :
  scan_at d st = Some sp →
  scan_at d (run es st) = Some (fold_left answer (own_answers d es) sp).
Proof.
  revert st sp. induction es as [|e es IH]; intros st sp Hsp; [done|].
  change (run (e :: es) st) with (run es (step e st)).
  destruct (own_answers d [e]) as [|a l] eqn:He.
  - assert (own_answers d (e :: es) = own_answers d es) as ->.
    { destruct e; try done. simpl in *. by case_bool_decide. }
    apply IH. by apply step_scan_at_other.
  - destruct e as [| | | | | |d' i cj| | ]; try done.
    simpl in *. case_bool_decide as Hdd; [subst d'|done]. simpl.
    apply IH. by apply step_scan_at_own.
Qed.

Lemma step_outer_scan (e : event) (st : pane) :
  outer_scan (step e st) = outer_scan st.
Proof.
  destruct e as [p|c|item| |wjson| |d' i cj|d' e| ]; cbv beta iota delta [step].
  - handler_frame outer_scan.
  - handler_frame outer_scan.
  - handler_frame outer_scan.
  - done.
  - by destruct wjson.
  - done.
  - unfold componentFetched. by repeat case_match.
  - unfold dialogEvent. destruct (dialogs st !! d'); [|done].
    destruct (dlg_step e d) as [dl' calls].
    by destruct (callbacks_frame calls (set_dialogs (<[d':=dl']> (dialogs st)) st))
      as (_ & _ & ->).
  - done.
Qed.

Lemma run_outer_scan (es : list event) (st : pane) :
  outer_scan (run es st) = outer_scan st.
Proof.
  revert st. induction es as [|e es IH]; intros st; [done|].
  change (run (e :: es) st) with (run es (step e st)).
  by rewrite IH, step_outer_scan.
Qed.

(** C9: every run of [findComps] gives its dialog candidates and limits
    of its own, empty to begin with. Whatever happened before the dialog
    was created and whatever happens to other dialogs afterwards, its
    candidates and limits are those its own component descriptions
    recorded, starting from empty; and the pane-level [candidates] and
    [limits] are never written. *)
Theorem candidates_fresh_per_dialog (es1 es2 : list event) (w : wdesc)
    (ws : list wdesc) (st : pane) :
  let d := length (dialogs (run es1 st)) in
  dialogs (step (EvWorkflow (w :: ws)) (run es1 st))
    = dialogs (run es1 st) ++ [dialog_new (workflow w)]
  ∧ dlg_scan (dialog_new (workflow w)) = scan_empty
  ∧ scan_at d (run (es1 ++ EvWorkflow (w :: ws) :: es2) st)
      = Some (fold_left answer (own_answers d es2)
                (scan_empty, map comppath_of (workflow w)))
  ∧ (own_answers d es2 = [] →
       ∃ dl, dialogs (run (es1 ++ EvWorkflow (w :: ws) :: es2) st) !! d = Some dl
             ∧ candidates (dlg_scan dl) = [] ∧ limits (dlg_scan dl) = ∅)
  ∧ outer_scan (run (es1 ++ EvWorkflow (w :: ws) :: es2) st) = outer_scan st.
Proof.
  intros d.
  assert (Hat : scan_at d (run (es1 ++ EvWorkflow (w :: ws) :: es2) st)
      = Some (fold_left answer (own_answers d es2)
                (scan_empty, map comppath_of (workflow w)))).
  { rewrite run_app. change (run (?e :: es2) ?s) with (run es2 (step e s)).
    apply run_scan_at. unfold scan_at. simpl.
    unfold d. by rewrite list_lookup_middle. }
  split_and!; try done.
  - intros Hnone. rewrite Hnone in Hat. unfold scan_at in Hat. simpl in Hat.
    destruct (dialogs _ !! d) as [dl|]; [|done].
    exists dl. simpl in Hat. injection Hat as E1 E2. by rewrite E1.
  - apply run_outer_scan.
Qed.

(** ** The table's rows *)

Lemma step_grid_data (e : event) (st : pane) :
  is_loadData e = false → grid_data (step e st) = grid_data st.
Proof.
  destruct e as [p|c|item| |wjson| |d' i cj|d' e| ]; cbv beta iota delta [step]; intros He.
  - done.
  - handler_frame grid_data.
  - handler_frame grid_data.
  - done.
  - by destruct wjson.
  - done.
  - unfold componentFetched. by repeat case_match.
  - unfold dialogEvent. destruct (dialogs st !! d'); [|done].
    destruct (dlg_step e d) as [dl' calls].
    by destruct (callbacks_frame calls (set_dialogs (<[d':=dl']> (dialogs st)) st))
      as (-> & _ & _).
  - done.
Qed.

(** C10: a click on a delete cell and a committed cell edit leave the
    rows of the table as they are; all either does is issue a command.
    Over any sequence of events that holds no [loadData], the rows stay
    what they were: only [loadData] changes them. *)
Theorem rows_change_only_by_loadData (es : list event) (st : pane) :
  (∀ c st', onClick c st = Ok st' →
     grid_data st' = grid_data st ∧
     (st' = st ∨ ∃ cmd, st' = issueCommand cmd st))
  ∧ (∀ item st', onCellChange item st = Ok st' →
     grid_data st' = grid_data st ∧
     (st' = st ∨ ∃ cmd, st' = issueCommand cmd st))
  ∧ (Forall (fun e => is_loadData e = false) es →
     grid_data (run es st) = grid_data st).
Proof.
  split_and!.
  - intros c st' H. apply onClick_issue in H as [->|[dn ->]]; eauto.
  - intros item st' H. apply onCellChange_issue in H as [->|[cmd ->]]; eauto.
  - revert st. induction es as [|e es IH]; intros st Hall; [done|].
    apply Forall_cons in Hall as [He Hes].
    change (run (e :: es) st) with (run es (step e st)).
    by rewrite IH, step_grid_data.
Qed.

(** ** Further properties of the commands *)

Lemma length_append (a b : string) :
  String.length (a +:+ b) = (String.length a + String.length b)%nat.
Proof.
  induction a as [|c a IH]; [reflexivity|].
  rewrite append_cons. simpl. by rewrite IH.
Qed.

Lemma append_inj_r (a b c : string) : a +:+ c = b +:+ c → a = b.
Proof.
  revert b. induction a as [|x a IH]; intros [|y b] H.
  - reflexivity.
  - apply (f_equal String.length) in H.
    rewrite append_nil_l, append_cons in H. simpl in H.
    rewrite length_append in H. lia.
  - apply (f_equal String.length) in H.
    rewrite append_nil_l, append_cons in H. simpl in H.
    rewrite length_append in H. lia.
  - rewrite !append_cons in H. injection H as -> H. f_equal. by apply IH.
Qed.

Lemma append_inj_l (a b c : string) : a +:+ b = a +:+ c → b = c.
Proof. apply (inj (String.app a)). Qed.

(** The text between the parentheses of the remove command. *)
Lemma remove_cmd_body (d : string) :
  remove_cmd d = pathname +:+ ".remove_parameter("
    +:+ (if contains "," d then d else dquote +:+ d +:+ dquote) +:+ ");".
Proof.
  unfold remove_cmd. rewrite split_many_iff.
  destruct (contains "," d); [reflexivity|]. by rewrite !append_assoc.
Qed.

(** Two different identities never give the same remove command:
    quoting a single identity and emitting a group as it stands cannot
    make two identities collide. *)
Theorem remove_cmd_distinct (d1 d2 : string) :
  d1 ≠ d2 → remove_cmd d1 ≠ remove_cmd d2.
Proof.
  intros Hne. rewrite !remove_cmd_body. intros H. apply Hne.
  apply append_inj_l, append_inj_l, append_inj_r in H.
  destruct (contains "," d1) eqn:H1, (contains "," d2) eqn:H2.
  - done.
  - subst d1. unfold dquote in H1.
    rewrite !contains_app, H2 in H1. discriminate H1.
  - subst d2. unfold dquote in H2.
    rewrite !contains_app, H1 in H2. discriminate H2.
  - by apply append_inj_l, append_inj_r in H.
Qed.

(** ** Further properties of the grid handlers *)

(** The click handler raises exactly when the click is on no cell at
    all, or is on the delete cell of a row that is not there or whose
    name is not a string. *)
Theorem onClick_raises_iff (c : option cellpos) (st : pane) :
  onClick c st = Throw TypeError ↔
    c = None ∨
    ∃ p, c = Some p ∧ cell p = 0%nat ∧
         ∀ delname, clicked_name st p ≠ Some (JStr delname).
Proof.
  unfold onClick, clicked_name, field. split.
  - destruct c as [p|]; [|by left]. intros H. right. exists p.
    split; [done|]. case_bool_decide as Hc; [|done]. split; [done|].
    intros delname. destruct (getRow st (row p)) as [r|]; simpl; [|done].
    destruct (r !! "name") as [[]|]; simpl in *; congruence.
  - intros [->|(p & -> & Hc & Hn)]; [done|].
    rewrite bool_decide_true by done.
    destruct (getRow st (row p)) as [r|]; simpl in *; [|done].
    destruct (r !! "name") as [[| | | |delname]|]; simpl; try done.
    by destruct (Hn delname).
Qed.

(** A click anywhere but on the delete cell does nothing at all. *)
Lemma onClick_other_cell (p : cellpos) (st : pane) :
  cell p ≠ 0%nat → onClick (Some p) st = Ok st.
Proof. intros Hc. unfold onClick. by rewrite bool_decide_false. Qed.

(** After [loadData] was given rows, a click on the delete cell of row
    [i] issues the remove command of that row's name; after [loadData]
    was given a falsy value the table is empty and no click issues
    anything. *)
Theorem click_after_loadData (rows : list jsobj) (i : nat) (r : jsobj)
    (delname : string) (p : properties) (c : option cellpos) (st : pane) :
  rows !! i = Some r → r !! "name" = Some (JStr delname) →
  properties_truthy p = false →
  issued (run [EvLoadData (Rows rows); EvClick (Some (CellPos i 0))] st)
    = issued st ++ [remove_cmd delname]
  ∧ issued (run [EvLoadData p; EvClick c] st) = issued st.
Proof.
  intros Hr Hname Hp. split.
  - unfold run. simpl. unfold getRow. simpl. rewrite Hr. unfold field.
    rewrite Hname. reflexivity.
  - unfold run. simpl. rewrite Hp. simpl.
    destruct c as [[ri ci]|]; [|done]. simpl.
    case_bool_decide; [|done]. unfold getRow. simpl.
    by destruct ri.
Qed.

(** A committed cell edit on an editable pane never raises and issues
    one assignment; for a row with a string name and no [value] field (the
    table has no such column) the value assigned is the text undefined. *)
Theorem onCellChange_without_value (item : jsobj) (n : string) (st : pane) :
  editable = true →
  item !! "name" = Some (JStr n) → item !! "value" = None →
  onCellChange item st
    = Ok (issueCommand (pathname +:+ "." +:+ n +:+ "=undefined") st).
Proof.
  intros He Hn Hv. unfold onCellChange, field. rewrite He, Hn, Hv. reflexivity.
Qed.

Lemma step_cellChange_not_editable (item : jsobj) (st : pane) :
  editable = false → step (EvCellChange item) st = st.
Proof. intros He. simpl. unfold onCellChange. by rewrite He. Qed.

(** On a pane that is not editable the cell-change events count for
    nothing: the pane ends in the state it reaches without them. *)
Theorem not_editable_ignores_cell_changes (es : list event) (st : pane) :
  editable = false →
  run es st = run (filter (fun e => is_cellChange e = false) es) st.
Proof.
  intros He. revert st. induction es as [|e es IH]; intros st; [done|].
  change (run (e :: es) st) with (run es (step e st)).
  rewrite filter_cons. destruct e; simpl is_cellChange;
    try (rewrite decide_True by done; apply IH).
  rewrite decide_False by done.
  rewrite step_cellChange_not_editable by done. apply IH.
Qed.

(** ** Further properties of the add command *)

Lemma padded_bare_member (p : padded) :
  well_padded p → well_padded (Padded "" (member p) "").
Proof. intros (_ & _ & ? & ? & ?). by repeat split. Qed.

(** The literal of a group of padded members, by pieces. *)
Lemma group_cmd_members (ps : list padded)
    (low high scaler adder name' : jsval) :
  (2 ≤ length ps)%nat → Forall well_padded ps →
  addParameter_cmd (join "," (map padded_text ps)) low high scaler adder name' =
    pathname +:+ ".add_parameter(" +:+ spec_group_literal (map member ps)
      +:+ spec_option_clauses low high scaler adder name' +:+ ");".
Proof.
  intros Hlen Hall.
  assert (Hsplit : split "," (join "," (map padded_text ps)) = map padded_text ps).
  { apply split_join.
    - destruct ps; [simpl in Hlen; lia|done].
    - apply Forall_map. eapply Forall_impl; [exact Hall|].
      intros p Hp. by apply padded_no_comma. }
  rewrite addParameter_group_pieces.
  - rewrite Hsplit. do 3 f_equal. unfold spec_group_literal. do 2 f_equal.
    rewrite map_map. rewrite <- (quoted_members ps Hall). by rewrite !map_map.
  - rewrite <- split_many_iff, Hsplit, length_map. apply bool_decide_true. lia.
Qed.

(** White space around the members of a group does not matter: the
    command is the one of the members joined with nothing around them. *)
Theorem addParameter_group_padding_irrelevant (ps : list padded)
    (low high scaler adder name' : jsval) :
  (2 ≤ length ps)%nat → Forall well_padded ps →
  addParameter_cmd (join "," (map padded_text ps)) low high scaler adder name'
  = addParameter_cmd (join "," (map member ps)) low high scaler adder name'.
Proof.
  intros Hlen Hall.
  pose (qs := map (fun p => Padded "" (member p) "") ps).
  assert (Hq1 : map padded_text qs = map member ps).
  { unfold qs. rewrite map_map. apply map_ext. intros p.
    unfold padded_text. simpl. apply append_nil_r. }
  assert (Hq2 : map member qs = map member ps).
  { unfold qs. by rewrite map_map. }
  assert (Hqs : Forall well_padded qs).
  { unfold qs. apply Forall_map. eapply Forall_impl; [exact Hall|].
    intros p Hp. by apply padded_bare_member. }
  assert (Hqlen : (2 ≤ length qs)%nat) by (unfold qs; by rewrite length_map).
  trans (addParameter_cmd (join "," (map padded_text qs))
           low high scaler adder name').
  - rewrite (group_cmd_members ps), (group_cmd_members qs) by done.
    by rewrite Hq2.
  - by rewrite Hq1.
Qed.

Lemma truthy_text (s : string) : s ≠ "" → truthy (JStr s) = true.
Proof. intros Hs. simpl. by rewrite bool_decide_false. Qed.

(** The option values are appended as they are, so what one of them
    holds can pose as the next clause: a low that carries the text of a
    high clause gives the command of that low and that high. *)
Theorem addParameter_values_not_escaped (target a b : string)
    (scaler adder name' : jsval) :
  a ≠ "" → b ≠ "" →
  addParameter_cmd target (JStr (a +:+ ",high=" +:+ b)) (JStr "")
                   scaler adder name'
  = addParameter_cmd target (JStr a) (JStr b) scaler adder name'.
Proof.
  intros Ha Hb. unfold addParameter_cmd. cbv zeta.
  rewrite !(addParameter_options _ _ _ scaler adder name').
  rewrite !spec_option_clauses_unfold. unfold appended at 1 2 6 7.
  rewrite (truthy_text a), (truthy_text b) by done.
  rewrite truthy_text by (by destruct a).
  unfold spec_clause. simpl. rewrite !append_assoc. reflexivity.
Qed.

(** ** Further properties of the dialog *)

Lemma text_clauses_cons (k : option_key) (t : string)
    (l : list (option_key * string)) :
  concat_strings (map (fun kt => spec_clause (kt.1, JStr kt.2))
    (filter (fun kt : option_key * string => kt.2 ≠ "") ((k, t) :: l)))
  = appended k (JStr t) +:+
    concat_strings (map (fun kt => spec_clause (kt.1, JStr kt.2))
      (filter (fun kt : option_key * string => kt.2 ≠ "") l)).
Proof.
  unfold appended. rewrite filter_cons. simpl.
  destruct (decide (t = "")) as [->|Ht].
  - rewrite decide_False by (by intros []). reflexivity.
  - rewrite decide_True by done. by rewrite bool_decide_false.
Qed.

Lemma spec_text_clauses_options (fm : form) :
  spec_option_clauses (JStr (f_low fm)) (JStr (f_high fm)) (JStr (f_scaler fm))
                      (JStr (f_adder fm)) (JStr (f_name fm))
  = spec_text_clauses fm.
Proof.
  rewrite spec_option_clauses_unfold. unfold spec_text_clauses.
  rewrite !text_clauses_cons, filter_nil. simpl concat_strings.
  by rewrite append_nil_r.
Qed.

(** The Ok of an open dialog whose target holds no comma issues one
    command: the add of the target as typed, with the clause of each
    option input whose text is not empty. A typed 0 is a text that is not
    empty, so it is kept. *)
Theorem dialog_ok_issues (st : pane) (d : nat) (dl : dialog) :
  dialogs st !! d = Some dl → dlg_open dl = true →
  contains "," (f_target (dlg_form dl)) = false →
  issued (step (EvDialog d ClickOk) st) =
    issued st ++
      [pathname +:+ ".add_parameter('" +:+ f_target (dlg_form dl) +:+ "'"
         +:+ spec_text_clauses (dlg_form dl) +:+ ");"].
Proof.
  intros Hd Hopen Hsingle. simpl. unfold dialogEvent. rewrite Hd.
  unfold dlg_step. rewrite Hopen. simpl. f_equal. f_equal.
  unfold addParameter_cmd. rewrite split_many_iff, Hsingle. cbv zeta.
  rewrite (addParameter_options _ (JStr _) (JStr _) (JStr _) (JStr _) (JStr _)).
  rewrite spec_text_clauses_options, !append_assoc. reflexivity.
Qed.

Lemma dlg_step_no_call (e : dlg_event) (dl : dialog) :
  e ≠ ClickOk → (dlg_step e dl).2 = [].
Proof.
  intros He. unfold dlg_step. repeat (case_match; simplify_eq); done.
Qed.

Lemma step_silent (e : event) (st : pane) :
  silent e = true → issued (step e st) = issued st.
Proof.
  destruct e as [p|c|item| |wjson| |d' i cj|d' e| ]; cbv beta iota delta [step];
    intros He; try done.
  - handler_frame issued.
  - by destruct wjson.
  - unfold componentFetched. by repeat case_match.
  - unfold dialogEvent. destruct (dialogs st !! d') as [dl|]; [|done].
    pose proof (dlg_step_no_call e dl) as Hn.
    destruct (dlg_step e dl) as [dl' calls]. simpl in Hn.
    rewrite Hn; [done|]. intros ->. discriminate He.
Qed.

(** Commands come from a click on the grid, a cell edit, the clear
    button and the Ok of a dialog, and from nothing else: [loadData], the
    answers to [getWorkflow] and [getComponent], typing, picking a
    suggestion, Cancel, the close control and a resize never issue one. *)
Theorem silent_events_issue_nothing (es : list event) (st : pane) :
  Forall (fun e => silent e = true) es → issued (run es st) = issued st.
Proof.
  revert st. induction es as [|e es IH]; intros st Hall; [done|].
  apply Forall_cons in Hall as [He Hes].
  change (run (e :: es) st) with (run es (step e st)).
  by rewrite IH, step_silent.
Qed.

Lemma dlg_run_app (es1 es2 : list dlg_event) (d : dialog) :
  dlg_run (es1 ++ es2) d =
    ((dlg_run es2 (dlg_run es1 d).1).1,
     (dlg_run es1 d).2 ++ (dlg_run es2 (dlg_run es1 d).1).2).
Proof.
  revert d. induction es1 as [|e es1 IH]; intros d.
  - simpl. by destruct (dlg_run es2 d).
  - simpl. destruct (dlg_step e d) as [d1 c1]. rewrite IH.
    destruct (dlg_run es1 d1) as [d2 c2]. simpl.
    destruct (dlg_run es2 d2) as [d3 c3]. simpl. by rewrite app_assoc.
Qed.

Lemma dlg_run_not_closed (es : list dlg_event) (d : dialog) :
  dlg_open d = true → closed_by es = None →
  dlg_open (dlg_run es d).1 = true ∧ (dlg_run es d).2 = [].
Proof.
  revert d. induction es as [|e es IH]; intros d Hopen Hnone; [done|].
  simpl. unfold dlg_step. rewrite Hopen.
  destruct e as [f text|i| | |]; simpl in Hnone; try done.
  - destruct (IH (set_form (set_field f text (dlg_form d)) d) Hopen Hnone)
      as [H1 H2].
    destruct (dlg_run es _) as [d2 c2]. simpl in *. by rewrite H2.
  - destruct (candidates (dlg_scan d) !! i) as [v|].
    + destruct (IH (set_form (set_field FTarget v (dlg_form d)) d) Hopen Hnone)
        as [H1 H2].
      destruct (dlg_run es _) as [d2 c2]. simpl in *. by rewrite H2.
    + destruct (IH d Hopen Hnone) as [H1 H2].
      destruct (dlg_run es d) as [d2 c2]. simpl in *. by rewrite H2.
Qed.

(** The one call a confirmed dialog makes carries the six texts as the
    inputs hold them when Ok is clicked: what was typed or picked before
    counts, what comes after does not. *)
Theorem dialog_call_carries_form (d : dialog) (es1 es2 : list dlg_event) :
  dlg_open d = true → closed_by es1 = None →
  (dlg_run (es1 ++ ClickOk :: es2) d).2 = [dlg_form (dlg_run es1 d).1].
Proof.
  intros Hopen Hnone. rewrite dlg_run_app. simpl snd.
  destruct (dlg_run_not_closed es1 d Hopen Hnone) as [Ho Hc].
  rewrite Hc. simpl. unfold dlg_step. rewrite Ho.
  by rewrite dlg_run_closed.
Qed.

(** ** Further properties of the candidate scan *)

Lemma record_pair_consistent (sc : scan) (p : string * jsobj) :
  scan_consistent sc → scan_consistent (record_pair sc p).
Proof.
  unfold scan_consistent. simpl. intros Hdom.
  rewrite dom_insert_L, list_to_set_app_L, Hdom. simpl.
  rewrite (right_id_L ∅ (∪)). apply (comm_L (∪)).
Qed.

Lemma step_dialogs_scans (P : scan → Prop) (e : event) (st : pane) :
  P scan_empty → (∀ sc p, P sc → P (record_pair sc p)) →
  Forall (fun dl => P (dlg_scan dl)) (dialogs st) →
  Forall (fun dl => P (dlg_scan dl)) (dialogs (step e st)).
Proof.
  intros Hempty Hrec Hall.
  destruct e as [p|c|item| |wjson| |d' i cj|d' e| ]; cbv beta iota delta [step];
    try done.
  - by assert (dialogs (settle (loadData p st) st) = dialogs st) as ->
      by handler_frame dialogs.
  - by assert (dialogs (settle (onClick c st) st) = dialogs st) as ->
      by handler_frame dialogs.
  - by assert (dialogs (settle (onCellChange item st) st) = dialogs st) as ->
      by handler_frame dialogs.
  - destruct wjson as [|w ws]; [done|]. simpl.
    apply Forall_app. split; [done|]. by repeat constructor.
  - unfold componentFetched.
    destruct (dialogs st !! d') as [dl|] eqn:Hd; [|done].
    destruct (dlg_pending dl !! i) as [comppath|]; [|done]. simpl.
    apply Forall_insert; [done|]. simpl. rewrite findInputs_settled.
    assert (Hdl : P (dlg_scan dl)).
    { by apply (Forall_lookup_1 _ _ _ _ Hall Hd). }
    generalize (map (fun input : jsobj => (comppath, input))
                    (default [] (Inputs cj))).
    intros ps. revert Hdl. generalize (dlg_scan dl).
    induction ps as [|q ps IH]; intros sc Hsc; [done|]. simpl. by apply IH, Hrec.
  - unfold dialogEvent. destruct (dialogs st !! d') as [dl|] eqn:Hd; [|done].
    destruct (dlg_step_scan e dl) as [E _].
    destruct (dlg_step e dl) as [dl' calls]. simpl in E.
    destruct (callbacks_frame calls (set_dialogs (<[d':=dl']> (dialogs st)) st))
      as (_ & -> & _). simpl.
    apply Forall_insert; [done|]. rewrite E.
    by apply (Forall_lookup_1 _ _ _ _ Hall Hd).
Qed.

(** In every dialog the pane ever holds, the names that have bounds are
    exactly the candidates: no candidate lacks its bounds pair and no
    bounds pair is stored for a name that is not offered. *)
Theorem dialogs_scan_consistent (es : list event) :
  Forall (fun dl => scan_consistent (dlg_scan dl)) (dialogs (run es pane_init)).
Proof.
  assert (H : ∀ st, Forall (fun dl => scan_consistent (dlg_scan dl)) (dialogs st) →
            Forall (fun dl => scan_consistent (dlg_scan dl)) (dialogs (run es st))).
  { induction es as [|e es IH]; intros st Hst; [done|].
    change (run (e :: es) st) with (run es (step e st)).
    apply IH, step_dialogs_scans; [done| |done].
    intros sc p. apply record_pair_consistent. }
  apply H. constructor.
Qed.

Lemma record_pairs_dom (ps : list (string * jsobj)) (sc : scan) :
  dom (limits sc) ⊆ dom (limits (fold_left record_pair ps sc)).
Proof.
  revert sc. induction ps as [|p ps IH]; intros sc; [done|].
  simpl. etrans; [|apply IH]. simpl. rewrite dom_insert_L.
  apply union_subseteq_r.
Qed.

Lemma answer_grows (sp : scan * list string) (a : nat * cjson) :
  candidates sp.1 `prefix_of` candidates (answer sp a).1
  ∧ dom (limits sp.1) ⊆ dom (limits (answer sp a).1).
Proof.
  unfold answer. destruct (sp.2 !! a.1) as [comppath|]; [|done]. simpl.
  rewrite findInputs_settled. split.
  - rewrite record_pairs_candidates. by apply prefix_app_r.
  - apply record_pairs_dom.
Qed.

Lemma answers_grow (l : list (nat * cjson)) (sp : scan * list string) :
  candidates sp.1 `prefix_of` candidates (fold_left answer l sp).1
  ∧ dom (limits sp.1) ⊆ dom (limits (fold_left answer l sp).1).
Proof.
  revert sp. induction l as [|a l IH]; intros sp; [done|]. simpl.
  destruct (answer_grows sp a) as [H1 H2].
  destruct (IH (answer sp a)) as [H3 H4].
  split; by etrans.
Qed.

(** The candidates of a dialog only ever grow at the end, and a name
    that has bounds keeps having bounds: whatever events follow, the
    candidates gathered so far remain, in place, and none is dropped. *)
Theorem candidates_only_grow (es : list event) (st : pane) (d : nat)
    (sp : scan * list string) :
  scan_at d st = Some sp →
  ∃ sp', scan_at d (run es st) = Some sp'
         ∧ candidates sp.1 `prefix_of` candidates sp'.1
         ∧ dom (limits sp.1) ⊆ dom (limits sp'.1).
Proof.
  intros Hsp. eexists. split; [by apply run_scan_at|]. apply answers_grow.
Qed.

Lemma record_pairs_nodup_lookup (ps : list (string * jsobj)) (sc : scan)
    (p : string * jsobj) :
  NoDup (map candidate_name ps) → p ∈ ps →
  limits (fold_left record_pair ps sc) !! candidate_name p = Some (spec_bounds p.2).
Proof.
  intros Hnd Hp. apply list_elem_of_split in Hp as (l1 & l2 & ->).
  apply record_pairs_last.
  rewrite map_app in Hnd. apply NoDup_app in Hnd as (_ & _ & Hnd).
  simpl in Hnd. by apply NoDup_cons in Hnd as [? _].
Qed.

Lemma record_pairs_limits_perm (ps ps' : list (string * jsobj)) :
  ps ≡ₚ ps' → NoDup (map candidate_name ps) →
  limits (fold_left record_pair ps scan_empty)
  = limits (fold_left record_pair ps' scan_empty).
Proof.
  intros Hperm Hnd. apply map_eq. intros k.
  destruct (decide (k ∈ map candidate_name ps)) as [Hk|Hk].
  - apply list_elem_of_fmap in Hk as (p & -> & Hp).
    rewrite !record_pairs_nodup_lookup; try done.
    + by rewrite <- Hperm.
    + by rewrite <- Hperm.
  - rewrite !record_pairs_untouched; try done. by rewrite <- Hperm.
Qed.

(** The order in which the component descriptions arrive changes the
    order of the candidates and nothing else: the same candidates are
    gathered, and when no two of them share a name the same bounds are
    stored. *)
Theorem scan_order_irrelevant (rs rs' : list (comp * cjson)) :
  rs ≡ₚ rs' →
  candidates (scan_responses rs scan_empty)
    ≡ₚ candidates (scan_responses rs' scan_empty)
  ∧ (NoDup (candidates (scan_responses rs scan_empty)) →
     limits (scan_responses rs scan_empty)
       = limits (scan_responses rs' scan_empty)).
Proof.
  intros Hperm. rewrite !scan_responses_pairs, !record_pairs_candidates.
  simpl candidates. rewrite !app_nil_l.
  assert (Hpairs : scanned_pairs rs ≡ₚ scanned_pairs rs').
  { unfold scanned_pairs. by rewrite Hperm. }
  split; [by rewrite Hpairs|].
  intros Hnd. by apply record_pairs_limits_perm.
Qed.

Lemma join_snoc (sep : Ascii.ascii) (l : list string) (x : string) :
  l ≠ [] → join sep (l ++ [x]) = join sep l +:+ String sep x.
Proof.
  induction l as [|p l IH]; [done|]. intros _.
  destruct l as [|q l]; [reflexivity|].
  change (join sep ((p :: q :: l) ++ [x]))
    with (p +:+ String sep (join sep ((q :: l) ++ [x]))).
  rewrite IH by done.
  change (join sep (p :: q :: l)) with (p +:+ String sep (join sep (q :: l))).
  by rewrite append_assoc, append_cons.
Qed.

(** The short name of a component holds no dot, and the path of the
    component is the short name itself or ends with a dot and the short
    name. *)
Theorem comppath_of_suffix (c : comp) :
  contains "." (comppath_of c) = false
  ∧ (comp_pathname c = comppath_of c
     ∨ ∃ prefix, comp_pathname c = prefix +:+ "." +:+ comppath_of c).
Proof.
  unfold comppath_of, slice_last.
  pose proof (split_not_nil "." (comp_pathname c)) as Hn.
  apply last_is_Some in Hn as [x Hx]. rewrite Hx. simpl.
  apply last_Some in Hx as [l Hl].
  pose proof (split_pieces_clean "." (comp_pathname c)) as Hclean.
  pose proof (join_split "." (comp_pathname c)) as Hjoin.
  rewrite Hl in Hclean, Hjoin. rewrite Forall_app in Hclean.
  destruct Hclean as [_ Hx]. rewrite Forall_singleton in Hx.
  split; [exact Hx|].
  destruct l as [|p l]; [left; symmetry; exact Hjoin|]. right. exists (join "." (p :: l)).
  rewrite <- Hjoin. by apply join_snoc.
Qed.

(** ** Further properties of the pane as a whole *)

Lemma step_rows (e : event) (st : pane) :
  grid_data (step e st) = rows_after [e] (grid_data st).
Proof.
  destruct (is_loadData e) eqn:He.
  - destruct e; try done. simpl. unfold shown.
    by destruct (properties_truthy p).
  - rewrite step_grid_data by done. by destruct e.
Qed.

(** The rows shown are always those of the last [loadData], replaced as
    a whole and never merged: the rows it was given, or none when it was
    given a falsy value. No other event has a say. *)
Theorem rows_are_last_load (es : list event) (st : pane) :
  grid_data (run es st) = rows_after es (grid_data st).
Proof.
  revert st. induction es as [|e es IH]; intros st; [done|].
  change (run (e :: es) st) with (run es (step e st)).
  rewrite IH, step_rows. by destruct e.
Qed.

Lemma callbacks_alerts (calls : list form) (st : pane) :
  alerts (fold_left (fun st fm => callback fm st) calls st) = alerts st.
Proof.
  revert st. induction calls as [|fm calls IH]; intros st; [done|].
  simpl. by rewrite IH.
Qed.

Lemma step_alerts (e : event) (st : pane) :
  alerts (step e st) =
    alerts st ++ (if is_failed_load e then [load_alert] else []).
Proof.
  destruct e as [p|c|item| |wjson| |d' i cj|d' e| ]; cbv beta iota delta [step];
    simpl is_failed_load.
  - unfold loadData, load_alert.
    destruct (properties_truthy p); simpl; by rewrite ?app_nil_r.
  - rewrite app_nil_r. handler_frame alerts.
  - rewrite app_nil_r. handler_frame alerts.
  - by rewrite app_nil_r.
  - rewrite app_nil_r. by destruct wjson.
  - by rewrite app_nil_r.
  - rewrite app_nil_r. unfold componentFetched. by repeat case_match.
  - rewrite app_nil_r. unfold dialogEvent.
    destruct (dialogs st !! d') as [dl|]; [|done].
    destruct (dlg_step e dl) as [dl' calls].
    by rewrite callbacks_alerts.
  - by rewrite app_nil_r.
Qed.

(** Alerts are raised by [loadData] given a falsy value and by nothing
    else, one for each such call, always with the same text. *)
Theorem alerts_are_failed_loads (es : list event) (st : pane) :
  alerts (run es st) =
    alerts st ++
      replicate (length (filter (fun e => is_failed_load e = true) es)) load_alert.
Proof.
  revert st. induction es as [|e es IH]; intros st.
  - simpl. by rewrite app_nil_r.
  - change (run (e :: es) st) with (run es (step e st)).
    rewrite IH, step_alerts, filter_cons.
    destruct (is_failed_load e); simpl.
    + by rewrite <- app_assoc.
    + by rewrite app_nil_r.
Qed.

Lemma addParameter_cmd_addressed (target : string)
    (low high scaler adder name' : jsval) :
  addressed (addParameter_cmd target low high scaler adder name').
Proof.
  unfold addressed, addParameter_cmd. cbv zeta.
  rewrite (addParameter_options _ low high scaler adder name').
  case_bool_decide.
  - rewrite addParameter_loop_fold, !append_assoc.
    change (".add_parameter((" +:+ ?x) with ("." +:+ "add_parameter((" +:+ x).
    eauto.
  - rewrite !append_assoc.
    change (".add_parameter('" +:+ ?x) with ("." +:+ "add_parameter('" +:+ x).
    eauto.
Qed.

Lemma remove_cmd_addressed (delname : string) : addressed (remove_cmd delname).
Proof.
  unfold addressed. rewrite remove_cmd_body.
  change (".remove_parameter(" +:+ ?x) with ("." +:+ "remove_parameter(" +:+ x).
  eauto.
Qed.

Lemma callbacks_issued (calls : list form) (st : pane) :
  ∃ cmds, issued (fold_left (fun st fm => callback fm st) calls st)
            = issued st ++ cmds
          ∧ length cmds = length calls ∧ Forall addressed cmds.
Proof.
  revert st. induction calls as [|fm calls IH]; intros st.
  - exists []. rewrite app_nil_r. by repeat split.
  - simpl. destruct (IH (callback fm st)) as (cmds & E & Hl & Ha).
    eexists (_ :: cmds). rewrite E. simpl. rewrite <- app_assoc. simpl.
    split; [reflexivity|]. split; [by rewrite Hl|].
    constructor; [apply addParameter_cmd_addressed|done].
Qed.

Lemma dlg_step_calls (e : dlg_event) (dl : dialog) :
  (length (dlg_step e dl).2 ≤ 1)%nat.
Proof.
  unfold dlg_step. repeat (case_match; simplify_eq); simpl; lia.
Qed.

(** The event issued nothing. *)
Ltac no_command :=
  exists []; rewrite app_nil_r; split; [done|]; split; [simpl; lia|constructor].

Lemma step_issued (e : event) (st : pane) :
  ∃ cmds, issued (step e st) = issued st ++ cmds
          ∧ (length cmds ≤ 1)%nat ∧ Forall addressed cmds.
Proof.
  destruct (silent e) eqn:Hs.
  { rewrite step_silent by done. no_command. }
  destruct e as [p|c|item| |wjson| |d' i cj|d' e| ]; try done;
    cbv beta iota delta [step].
  - destruct (onClick c st) as [st'|] eqn:E; simpl.
    + apply onClick_issue in E as [->|[delname ->]].
      * no_command.
      * exists [remove_cmd delname]. split; [reflexivity|]. split; [simpl; lia|].
        repeat constructor. apply remove_cmd_addressed.
    + no_command.
  - unfold onCellChange. destruct editable; simpl.
    + eexists [_]. split; [reflexivity|]. split; [simpl; lia|].
      repeat constructor. unfold addressed. eauto.
    + no_command.
  - eexists [_]. split; [reflexivity|]. split; [simpl; lia|].
    repeat constructor. unfold addressed. eauto.
  - unfold dialogEvent. destruct (dialogs st !! d') as [dl|].
    + pose proof (dlg_step_calls e dl) as Hle.
      destruct (dlg_step e dl) as [dl' calls]. simpl in Hle.
      destruct (callbacks_issued calls
                  (set_dialogs (<[d':=dl']> (dialogs st)) st))
        as (cmds & E & Hl & Ha).
      exists cmds. rewrite E. simpl. split; [done|]. split; [lia|done].
    + no_command.
Qed.

(** The log of commands only ever grows at the end, by at most one
    command for each event, and every command in it is addressed to the
    pane's own entity: it begins with the path and a dot. *)
Theorem issued_append_only (es : list event) (st : pane) :
  ∃ cmds, issued (run es st) = issued st ++ cmds
          ∧ (length cmds ≤ length es)%nat ∧ Forall addressed cmds.
Proof.
  revert st. induction es as [|e es IH]; intros st.
  - exists []. rewrite app_nil_r. split; [done|]. split; [done|constructor].
  - change (run (e :: es) st) with (run es (step e st)).
    destruct (IH (step e st)) as (cmds2 & E2 & Hl2 & Ha2).
    destruct (step_issued e st) as (cmds1 & E1 & Hl1 & Ha1).
    exists (cmds1 ++ cmds2). rewrite E2, E1, <- app_assoc.
    split; [done|]. split.
    + rewrite length_app. simpl. lia.
    + by apply Forall_app.
Qed.

Lemma step_dialogs_length (e : event) (st : pane) :
  length (dialogs (step e st)) =
    (length (dialogs st) + (if opens_dialog e then 1 else 0))%nat.
Proof.
  destruct e as [p|c|item| |wjson| |d' i cj|d' e| ]; cbv beta iota delta [step];
    simpl opens_dialog; rewrite ?Nat.add_0_r; try done.
  - f_equal. handler_frame dialogs.
  - f_equal. handler_frame dialogs.
  - f_equal. handler_frame dialogs.
  - destruct wjson as [|w ws]; simpl; [lia|]. by rewrite length_app.
  - unfold componentFetched. repeat case_match; try done.
    simpl. by rewrite length_insert.
  - unfold dialogEvent. destruct (dialogs st !! d') as [dl|]; [|done].
    destruct (dlg_step e dl) as [dl' calls].
    destruct (callbacks_frame calls (set_dialogs (<[d':=dl']> (dialogs st)) st))
      as (_ & -> & _). simpl. by rewrite length_insert.
Qed.

(** For well-formed answers to [getWorkflow]: an empty array raises on
    [wjson[0]] and leaves the pane as it was; every other answer creates
    one dialog; nothing else creates a dialog, and no dialog is ever
    dropped. *)
Theorem dialogs_count (es : list event) (st : pane) :
  findComps [] st = Throw TypeError
  ∧ step (EvWorkflow []) st = st
  ∧ length (dialogs (run es st)) =
      (length (dialogs st)
       + length (filter (fun e => opens_dialog e = true) es))%nat.
Proof.
  split; [reflexivity|]. split; [reflexivity|].
  revert st. induction es as [|e es IH]; intros st; [simpl; lia|].
  change (run (e :: es) st) with (run es (step e st)).
  rewrite IH, step_dialogs_length, filter_cons.
  destruct (opens_dialog e); simpl; lia.
Qed.

Lemma callbacks_resized (calls : list form) (st : pane) :
  resized (fold_left (fun st fm => callback fm st) calls st) = resized st.
Proof.
  revert st. induction calls as [|fm calls IH]; intros st; [done|].
  simpl. by rewrite IH.
Qed.

Lemma step_resized (e : event) (st : pane) :
  resized (step e st) = (resized st + (if redraws e then 1 else 0))%nat.
Proof.
  destruct e as [p|c|item| |wjson| |d' i cj|d' e| ]; cbv beta iota delta [step];
    simpl redraws; rewrite ?Nat.add_0_r.
  - unfold loadData. destruct (properties_truthy p); simpl; lia.
  - handler_frame resized.
  - handler_frame resized.
  - done.
  - by destruct wjson.
  - done.
  - unfold componentFetched. by repeat case_match.
  - unfold dialogEvent. destruct (dialogs st !! d') as [dl|]; [|done].
    destruct (dlg_step e dl) as [dl' calls]. by rewrite callbacks_resized.
  - simpl. lia.
Qed.

(** The grid is redrawn once for each [loadData], also when it was given
    a falsy value, and once for each resizeCanvas event; no other event
    redraws it. *)
Theorem redraws_count (es : list event) (st : pane) :
  resized (run es st) =
    (resized st + length (filter (fun e => redraws e = true) es))%nat.
Proof.
  revert st. induction es as [|e es IH]; intros st; [simpl; lia|].
  change (run (e :: es) st) with (run es (step e st)).
  rewrite IH, step_resized, filter_cons.
  destruct (redraws e); simpl; lia.
Qed.

End Pane.







(** ** The properties at concrete inputs *)

(** C1: the group identity a.x,a.y is emitted with no parentheses of its
    own, so the command is not the one with doubled parentheses. *)
Lemma remove_cmd_group_not_parenthesized :
  remove_cmd "path" "a.x,a.y" = "path.remove_parameter(a.x,a.y);"
  ∧ remove_cmd "path" "a.x,a.y" ≠ "path.remove_parameter((a.x,a.y));".
Proof. split; [reflexivity|discriminate]. Qed.


(** C3 at a single target with a low, a zero high, no scaler, an empty
    adder and a name. *)
Lemma addParameter_single_target_witness :
  contains "," "comp1.x" = false
  ∧ addParameter_cmd "path" "comp1.x" (JStr "1") (JNum 0) JUndefined
                     (JStr "") (JStr "p")
    = "path.add_parameter('comp1.x',low=1,name='p');".
Proof.
  split; [reflexivity|].
  exact (addParameter_single_target "path" "comp1.x" (JStr "1") (JNum 0)
           JUndefined (JStr "") (JStr "p") eq_refl).
Defined.

(** C4 at the group of scenario B. *)
Lemma addParameter_group_witness :
  (2 ≤ length [Padded " " "a.x" " "; Padded " " "a.y" " "])%nat
  ∧ Forall well_padded [Padded " " "a.x" " "; Padded " " "a.y" " "]
  ∧ addParameter_cmd "path" " a.x , a.y " JUndefined JUndefined JUndefined
                     JUndefined (JStr "grp1")
    = "path.add_parameter(('a.x','a.y',),name='grp1');".
Proof.
  assert (Hlen : (2 ≤ length [Padded " " "a.x" " "; Padded " " "a.y" " "])%nat)
    by (simpl; lia).
  assert (Hall : Forall well_padded [Padded " " "a.x" " "; Padded " " "a.y" " "])
    by (repeat constructor).
  split; [exact Hlen|]. split; [exact Hall|].
  exact (addParameter_group "path" _ JUndefined JUndefined JUndefined
           JUndefined (JStr "grp1") Hlen Hall).
Defined.

(** C5: a click on the delete cell of a row that has a target and no
    name raises; it does not issue the remove command of the target. *)
Lemma onClick_without_name_raises :
  onClick "path" (Some (CellPos 0 0)) table_without_name = Throw TypeError
  ∧ onClick "path" (Some (CellPos 0 0)) table_without_name
    ≠ Ok (issueCommand (remove_cmd "path" "a.x") table_without_name).
Proof. split; [reflexivity|discriminate]. Qed.

(** C5 at a row named p1, its target replaced. *)
Lemma onClick_identity_witness :
  [row_named] !! 0%nat = Some row_named
  ∧ onClick "path" (Some (CellPos 0 0))
      (setData (Rows [<["target" := JStr "b.y"]> row_named]) pane_init)
    = Ok (issueCommand (remove_cmd "path" "p1")
            (setData (Rows [<["target" := JStr "b.y"]> row_named]) pane_init)).
Proof.
  split; [reflexivity|].
  exact (proj1 (onClick_identity "path" pane_init [row_named] 0 row_named
                  (JStr "b.y") eq_refl) "p1" eq_refl).
Defined.

(** C8 at a dialog whose Ok is clicked, and clicked at again. *)
Lemma dialog_callback_once_witness :
  dlg_open dialog_one_candidate = true
  ∧ (length (dlg_run [SelectCandidate 0; TypeText FLow "0"; ClickOk; ClickOk;
                      ClickCancel] dialog_one_candidate).2 ≤ 1)%nat.
Proof.
  split; [reflexivity|].
  exact (proj1 (dialog_callback_once dialog_one_candidate
                  [SelectCandidate 0; TypeText FLow "0"; ClickOk; ClickOk;
                   ClickCancel] eq_refl)).
Defined.

(** The calls of that life: one, with the candidate picked and the low
    typed. *)
Example dialog_one_call :
  (dlg_run [SelectCandidate 0; TypeText FLow "0"; ClickOk; ClickOk; ClickCancel]
           dialog_one_candidate).2
  = [Form "comp1.x" "0" "" "" "" ""].
Proof. reflexivity. Qed.

(** The scan of [two_components], whichever [jQuery.each] is loaded. *)
Example scan_two_components (absent_throws : bool) :
  let sc := scan_responses absent_throws two_components scan_empty in
  candidates sc = ["comp1.x"; "comp1.y"]
  ∧ limits sc !! "comp1.x" = Some (JNull, JNull)
  ∧ limits sc !! "comp1.y" = Some (JNum 1, JNull).
Proof. destruct absent_throws; vm_compute; done. Qed.

(** What the dialog hands to [addParameter] for scenario A: texts. *)
Example dialog_scenario_A :
  issued (run "path" "parms" true true
            [EvWorkflow [WDesc []];
             EvDialog 0 (TypeText FTarget "comp1.x");
             EvDialog 0 (TypeText FLow "0");
             EvDialog 0 (TypeText FHigh "10");
             EvDialog 0 ClickOk] pane_init)
  = ["path.add_parameter('comp1.x',low=0,high=10);"].
Proof. reflexivity. Qed.

(** ** The further properties at concrete inputs *)

Lemma remove_cmd_distinct_witness :
  "a.x,a.y" ≠ "a.x"
  ∧ remove_cmd "path" "a.x,a.y" ≠ remove_cmd "path" "a.x".
Proof.
  assert (H : "a.x,a.y" ≠ "a.x") by discriminate.
  split; [exact H|]. exact (remove_cmd_distinct "path" _ _ H).
Defined.

Lemma click_after_loadData_witness :
  [row_named] !! 0%nat = Some row_named
  ∧ row_named !! "name" = Some (JStr "p1")
  ∧ properties_truthy (NotRows JNull) = false
  ∧ issued (run "path" "parms" true true
              [EvLoadData (Rows [row_named]); EvClick (Some (CellPos 0 0))]
              pane_init)
    = [remove_cmd "path" "p1"]
  ∧ issued (run "path" "parms" true true
              [EvLoadData (NotRows JNull); EvClick (Some (CellPos 0 0))]
              pane_init)
    = [].
Proof.
  split; [reflexivity|]. split; [reflexivity|]. split; [reflexivity|].
  exact (click_after_loadData "path" "parms" true true [row_named] 0 row_named
           "p1" (NotRows JNull) (Some (CellPos 0 0)) pane_init
           eq_refl eq_refl eq_refl).
Defined.

Lemma onCellChange_without_value_witness :
  true = true
  ∧ row_named !! "name" = Some (JStr "p1")
  ∧ row_named !! "value" = None
  ∧ onCellChange "path" true row_named pane_init
    = Ok (issueCommand "path.p1=undefined" pane_init).
Proof.
  split; [reflexivity|]. split; [reflexivity|]. split; [reflexivity|].
  exact (onCellChange_without_value "path" true row_named "p1" pane_init
           eq_refl eq_refl eq_refl).
Defined.

Lemma not_editable_ignores_cell_changes_witness :
  false = false
  ∧ run "path" "parms" false true
        [EvCellChange row_named; EvClear; EvCellChange row_named] pane_init
    = run "path" "parms" false true [EvClear] pane_init.
Proof.
  split; [reflexivity|].
  exact (not_editable_ignores_cell_changes "path" "parms" false true
           [EvCellChange row_named; EvClear; EvCellChange row_named]
           pane_init eq_refl).
Defined.

Lemma addParameter_group_padding_irrelevant_witness :
  (2 ≤ length [Padded " " "a.x" " "; Padded " " "a.y" " "])%nat
  ∧ Forall well_padded [Padded " " "a.x" " "; Padded " " "a.y" " "]
  ∧ addParameter_cmd "path" " a.x , a.y " (JStr "1") JUndefined JUndefined
                     JUndefined JUndefined
    = addParameter_cmd "path" "a.x,a.y" (JStr "1") JUndefined JUndefined
                       JUndefined JUndefined.
Proof.
  assert (Hlen : (2 ≤ length [Padded " " "a.x" " "; Padded " " "a.y" " "])%nat)
    by (simpl; lia).
  assert (Hall : Forall well_padded [Padded " " "a.x" " "; Padded " " "a.y" " "])
    by (repeat constructor).
  split; [exact Hlen|]. split; [exact Hall|].
  exact (addParameter_group_padding_irrelevant "path" _ (JStr "1") JUndefined
           JUndefined JUndefined JUndefined Hlen Hall).
Defined.

Lemma addParameter_values_not_escaped_witness :
  "1" ≠ "" ∧ "2" ≠ ""
  ∧ addParameter_cmd "path" "comp1.x" (JStr "1,high=2") (JStr "")
                     JUndefined JUndefined JUndefined
    = addParameter_cmd "path" "comp1.x" (JStr "1") (JStr "2")
                       JUndefined JUndefined JUndefined.
Proof.
  assert (H1 : "1" ≠ "") by discriminate.
  assert (H2 : "2" ≠ "") by discriminate.
  split; [exact H1|]. split; [exact H2|].
  exact (addParameter_values_not_escaped "path" "comp1.x" "1" "2"
           JUndefined JUndefined JUndefined H1 H2).
Defined.

Lemma dialog_ok_issues_witness :
  dialogs pane_with_dialog !! 0%nat = Some dialog_filled
  ∧ dlg_open dialog_filled = true
  ∧ contains "," (f_target (dlg_form dialog_filled)) = false
  ∧ issued (step "path" "parms" true true (EvDialog 0 ClickOk) pane_with_dialog)
    = ["path.add_parameter('comp1.x',low=0,high=10);"].
Proof.
  split; [reflexivity|]. split; [reflexivity|]. split; [reflexivity|].
  exact (dialog_ok_issues "path" "parms" true true pane_with_dialog 0
           dialog_filled eq_refl eq_refl eq_refl).
Defined.

Lemma silent_events_issue_nothing_witness :
  Forall (fun e => silent e = true)
    [EvWorkflow [WDesc [Comp "top.comp1"]]; EvComponent 0 0 component_x;
     EvDialog 0 (TypeText FTarget "comp1.x"); EvDialog 0 ClickCancel;
     EvLoadData (NotRows JNull); EvResizeCanvas]
  ∧ issued (run "path" "parms" true true
              [EvWorkflow [WDesc [Comp "top.comp1"]]; EvComponent 0 0 component_x;
               EvDialog 0 (TypeText FTarget "comp1.x"); EvDialog 0 ClickCancel;
               EvLoadData (NotRows JNull); EvResizeCanvas] pane_init)
    = [].
Proof.
  assert (H : Forall (fun e => silent e = true)
    [EvWorkflow [WDesc [Comp "top.comp1"]]; EvComponent 0 0 component_x;
     EvDialog 0 (TypeText FTarget "comp1.x"); EvDialog 0 ClickCancel;
     EvLoadData (NotRows JNull); EvResizeCanvas]) by (repeat constructor).
  split; [exact H|].
  exact (silent_events_issue_nothing "path" "parms" true true _ pane_init H).
Defined.

Lemma dialog_call_carries_form_witness :
  dlg_open dialog_one_candidate = true
  ∧ closed_by [SelectCandidate 0; TypeText FLow "0"] = None
  ∧ (dlg_run ([SelectCandidate 0; TypeText FLow "0"]
               ++ ClickOk :: [TypeText FLow "5"; ClickOk])
             dialog_one_candidate).2
    = [Form "comp1.x" "0" "" "" "" ""].
Proof.
  split; [reflexivity|]. split; [reflexivity|].
  exact (dialog_call_carries_form dialog_one_candidate
           [SelectCandidate 0; TypeText FLow "0"]
           [TypeText FLow "5"; ClickOk] eq_refl eq_refl).
Defined.

Lemma candidates_only_grow_witness :
  scan_at 0 pane_one_gathered = Some (scan_one_gathered, ["comp2"])
  ∧ ∃ sp', scan_at 0 (run "path" "parms" true true
                        [EvComponent 0 0 component_y; EvDialog 0 ClickCancel;
                         EvLoadData (NotRows JNull)]
                        pane_one_gathered) = Some sp'
           ∧ ["comp1.x"] `prefix_of` candidates sp'.1
           ∧ dom (limits scan_one_gathered) ⊆ dom (limits sp'.1).
Proof.
  split; [reflexivity|].
  exact (candidates_only_grow "path" "parms" true true
           [EvComponent 0 0 component_y; EvDialog 0 ClickCancel;
            EvLoadData (NotRows JNull)]
           pane_one_gathered 0 (scan_one_gathered, ["comp2"]) eq_refl).
Defined.

(** The candidates of that dialog afterwards: the one gathered before,
    in place, and the one of the second component after it. *)
Example candidates_grown :
  (fun sp : scan * list string => candidates sp.1) <$>
    scan_at 0 (run "path" "parms" true true
                 [EvComponent 0 0 component_y; EvDialog 0 ClickCancel;
                  EvLoadData (NotRows JNull)]
                 pane_one_gathered)
  = Some ["comp1.x"; "comp2.y"].
Proof. reflexivity. Qed.

Lemma scan_order_irrelevant_witness :
  [(Comp "top.comp1", component_x); (Comp "top.comp2", component_y)]
    ≡ₚ [(Comp "top.comp2", component_y); (Comp "top.comp1", component_x)]
  ∧ candidates (scan_responses true
       [(Comp "top.comp1", component_x); (Comp "top.comp2", component_y)]
       scan_empty)
    ≡ₚ candidates (scan_responses true
       [(Comp "top.comp2", component_y); (Comp "top.comp1", component_x)]
       scan_empty).
Proof.
  assert (H : [(Comp "top.comp1", component_x); (Comp "top.comp2", component_y)]
    ≡ₚ [(Comp "top.comp2", component_y); (Comp "top.comp1", component_x)])
    by apply perm_swap.
  split; [exact H|].
  exact (proj1 (scan_order_irrelevant true _ _ H)).
Defined.

End ParametersPane.
